(** * nodriver-scraper: the extraction engine of [app.py]

    A shallow embedding of [PriceScraper] (text normalisation, price
    extraction, SKU classification, selector search and the browser-session
    lifecycle) together with the properties stated about it.

    Conventions of the embedding.
    - A Python [str] is a [list ascii]; an [ascii] stands for the code point
      of the same number (0..255).  On this range Python's [\d] is ['0'..'9'],
      [\s] and [str.isspace] are the twelve code points of [is_space], and
      [re.IGNORECASE] relates a letter only to its ASCII counterpart.
    - The [re] module is embedded by a backtracking matcher that lists the
      ways a pattern can match at a position in the order in which Python's
      engine tries them (greedy repetition, ordered alternation); the head
      of the list is the match Python reports.
    - A Python [float] obtained from a matched amount is the exact rational
      it denotes ([Q]).  The amounts have at most two decimals, rounding to
      a double is monotone and [0.01], [10000] are themselves the roundings
      of these rationals, so the comparisons of the code agree with [Qle].
    - An [exn] is an instance of Python's [Exception]; [exn_str] is [str(e)].
    - The browser engine is given by what each of its calls does.  One
      scrape launches, navigates, sleeps and stops at most once, queries
      every selector at most once and reads every element at most once, so
      a function of the selector describes any engine.
    - The object returned by [uc.start] is true, as objects are.
    - Calls to [logger] are not part of the embedding. *)

From Stdlib Require Import List Ascii String Bool Arith PeanoNat ZArith QArith Lia.
Import ListNotations.

Local Open Scope nat_scope.
Local Open Scope list_scope.

(** ** Characters and strings *)

Abbreviation text := (list ascii).

Definition str (s : string) : text := list_ascii_of_string s.

Definition code (c : ascii) : nat := nat_of_ascii c.

Definition in_range (lo hi c : ascii) : bool :=
  (code lo <=? code c) && (code c <=? code hi).

Definition is_digit (c : ascii) : bool := in_range "0" "9" c.

Definition is_upper (c : ascii) : bool := in_range "A" "Z" c.

Definition is_lower (c : ascii) : bool := in_range "a" "z" c.

(** [str.isspace] on code points below 256: tab, line feed, vertical tab,
    form feed, carriage return, the four separators 28..31, space, NEL and
    the no-break space. *)
Definition is_space (c : ascii) : bool :=
  let n := code c in
  ((9 <=? n) && (n <=? 13)) || ((28 <=? n) && (n <=? 32))
  || (n =? 133) || (n =? 160).

Definition lower (c : ascii) : ascii :=
  if is_upper c then ascii_of_nat (code c + 32) else c.

Definition upper (c : ascii) : ascii :=
  if is_lower c then ascii_of_nat (code c - 32) else c.

(** [str.strip()]: leading and trailing whitespace removed. *)
Fixpoint lstrip (s : text) : text :=
  match s with
  | c :: t => if is_space c then lstrip t else s
  | [] => []
  end.

Definition rstrip (s : text) : text := rev (lstrip (rev s)).

Definition strip (s : text) : text := rstrip (lstrip s).

(** [s.replace(',', '')]. *)
Definition remove_commas (s : text) : text :=
  filter (fun c => negb (Ascii.eqb c ",")) s.

(** ** The regular expressions of Python's [re] that the program uses *)

Module Re.

Inductive regex : Type :=
| Eps                                   (* the empty pattern *)
| Lit (c : ascii)                       (* a literal character *)
| Digit                                 (* \d *)
| Space                                 (* \s *)
| Class (rs : list (ascii * ascii))     (* [a-b...] *)
| Bol                                   (* ^ *)
| Eol                                   (* $ *)
| Seq (r1 r2 : regex)
| Alt (r1 r2 : regex)                   (* r1|r2, r1 tried first *)
| Rep (lo : nat) (hi : option nat) (r : regex)
                                        (* greedy r{lo,hi}; [None]: no bound *)
| Group (r : regex).                    (* the capturing group *)

(** State of one match attempt: the characters consumed since the attempt
    began, the text captured by the group so far, and what is left. *)
Record mstate : Type := MState {
  consumed : nat;
  cap : option text;
  rest : text
}.

Definition in_class (rs : list (ascii * ascii)) (c : ascii) : bool :=
  existsb (fun r => in_range (fst r) (snd r) c) rs.

Definition lit_matches (ic : bool) (c x : ascii) : bool :=
  if ic then Ascii.eqb (lower x) (lower c) else Ascii.eqb x c.

Definition class_matches (ic : bool) (rs : list (ascii * ascii)) (x : ascii)
  : bool :=
  in_class rs x || (ic && (in_class rs (lower x) || in_class rs (upper x))).

(** Consume one character satisfying [p]. *)
Definition step (p : ascii -> bool) (st : mstate) : list mstate :=
  match rest st with
  | x :: t => if p x then [MState (S (consumed st)) (cap st) t] else []
  | [] => []
  end.

(** Greedy bounded repetition of the matcher [f]: one more iteration is
    tried before stopping, and stopping needs the lower bound to be met. *)
Fixpoint rep (f : mstate -> list mstate) (lo hi : nat) (st : mstate)
  : list mstate :=
  match hi with
  | 0 => if lo =? 0 then [st] else []
  | S h => flat_map (rep f (pred lo) h) (f st)
           ++ (if lo =? 0 then [st] else [])
  end.

(** [matches ic bol r st]: the states after each way [r] can match from
    [st], in backtracking order.  [ic] is [re.IGNORECASE]; [bol] says that
    the attempt began at index 0 of the string.  An unbounded repetition is
    cut at the number of characters left, which no iteration that consumes
    a character can exceed (every repeated sub-pattern used here does). *)
Fixpoint matches (ic bol : bool) (r : regex) (st : mstate) {struct r}
  : list mstate :=
  match r with
  | Eps => [st]
  | Lit c => step (lit_matches ic c) st
  | Digit => step is_digit st
  | Space => step is_space st
  | Class rs => step (class_matches ic rs) st
  | Bol => if bol && (consumed st =? 0) then [st] else []
  | Eol => match rest st with
           | [] => [st]
           | [c] => if Ascii.eqb c "010" then [st] else []
           | _ => []
           end
  | Seq r1 r2 => flat_map (matches ic bol r2) (matches ic bol r1 st)
  | Alt r1 r2 => matches ic bol r1 st ++ matches ic bol r2 st
  | Rep lo hi r1 =>
      rep (matches ic bol r1) lo
          (match hi with Some h => h | None => List.length (rest st) end) st
  | Group r1 =>
      map (fun st' =>
             MState (consumed st')
                    (Some (firstn (consumed st' - consumed st) (rest st)))
                    (rest st'))
          (matches ic bol r1 st)
  end.

(** The match reported at the start of [s]: captured group and length. *)
Definition match_here (ic bol : bool) (r : regex) (s : text)
  : option (option text * nat) :=
  match matches ic bol r (MState 0 None s) with
  | st :: _ => Some (cap st, consumed st)
  | [] => None
  end.

Definition group_text (g : option text) : text :=
  match g with Some t => t | None => [] end.

(** [re.match(r, s)] seen as a truth value. *)
Definition re_match (ic : bool) (r : regex) (s : text) : bool :=
  match match_here ic true r s with Some _ => true | None => false end.

(** [re.sub(r, '', s)]: scan left to right; a match of [k+1] characters
    found at the current position is dropped ([skip] counts what is still
    to drop), otherwise the character is kept.  The patterns used match no
    empty string. *)
Fixpoint sub_from (ic : bool) (r : regex) (s : text) (bol : bool)
         (skip : nat) {struct s} : text :=
  match s with
  | [] => []
  | c :: t =>
      match skip with
      | S k => sub_from ic r t false k
      | 0 => match match_here ic bol r s with
             | Some (_, S k) => sub_from ic r t false k
             | _ => c :: sub_from ic r t false 0
             end
      end
  end.

Definition re_sub_empty (ic : bool) (r : regex) (s : text) : text :=
  sub_from ic r s true 0.

(** [re.findall(r, s)] for a pattern with one group: the group of every
    match, left to right, the search resuming where a match ended. *)
Fixpoint findall_from (ic : bool) (r : regex) (s : text) (bol : bool)
         (skip : nat) {struct s} : list text :=
  match s with
  | [] => match skip, match_here ic bol r [] with
          | 0, Some (g, _) => [group_text g]
          | _, _ => []
          end
  | c :: t =>
      match skip with
      | S k => findall_from ic r t false k
      | 0 => match match_here ic bol r s with
             | Some (g, n) => group_text g :: findall_from ic r t false (pred n)
             | None => findall_from ic r t false 0
             end
      end
  end.

Definition re_findall (ic : bool) (r : regex) (s : text) : list text :=
  findall_from ic r s true 0.

(** A literal word as a pattern. *)
Fixpoint lits (s : text) : regex :=
  match s with
  | [] => Eps
  | [c] => Lit c
  | c :: t => Seq (Lit c) (lits t)
  end.

End Re.

Import Re.

(** [(was|orig|originally|save|you save|msrp)], used with
    [re.IGNORECASE]. *)
Definition NOISE : regex :=
  Group (Alt (lits (str "was"))
        (Alt (lits (str "orig"))
        (Alt (lits (str "originally"))
        (Alt (lits (str "save"))
        (Alt (lits (str "you save"))
             (lits (str "msrp"))))))).

(** [\d{1,3}(?:,\d{3})*\.?\d{0,2}] *)
Definition AMOUNT : regex :=
  Seq (Rep 1 (Some 3) Digit)
 (Seq (Rep 0 None (Seq (Lit ",") (Rep 3 (Some 3) Digit)))
 (Seq (Rep 0 (Some 1) (Lit "."))
      (Rep 0 (Some 2) Digit))).

(** [\$(AMOUNT)] *)
Definition P_DOLLAR : regex := Seq (Lit "$") (Group AMOUNT).

(** [\s*USD] *)
Definition USD_SUFFIX : regex := Seq (Rep 0 None Space) (lits (str "USD")).

(** [(AMOUNT)\s*USD] *)
Definition P_USD : regex := Seq (Group AMOUNT) USD_SUFFIX.

(** [(AMOUNT)] *)
Definition P_BARE : regex := Group AMOUNT.

Definition price_patterns : list regex := [P_DOLLAR; P_USD; P_BARE].

(** [[A-Z0-9]] *)
Definition ALNUM : list (ascii * ascii) :=
  [("A"%char, "Z"%char); ("0"%char, "9"%char)].

(** [^\d{6,}$], [^[A-Z0-9]{3,}$], [^\d{3,}-[A-Z0-9]+$] and
    [^[A-Z]{2,}\d+$], used with [re.IGNORECASE]. *)
Definition sku_patterns : list regex :=
  [ Seq Bol (Seq (Rep 6 None Digit) Eol);
    Seq Bol (Seq (Rep 3 None (Class ALNUM)) Eol);
    Seq Bol (Seq (Rep 3 None Digit)
            (Seq (Lit "-") (Seq (Rep 1 None (Class ALNUM)) Eol)));
    Seq Bol (Seq (Rep 2 None (Class [("A"%char, "Z"%char)]))
            (Seq (Rep 1 None Digit) Eol)) ].

(** [re.sub(NOISE, '', text, flags=re.IGNORECASE)] *)
Definition normalize (t : text) : text := re_sub_empty true NOISE t.

(** ** Price extraction *)

(** [float(s)] on the decimal literals the patterns can produce: digits,
    an optional point, digits, with a digit somewhere.  [None] is
    [ValueError].  (Signs, exponents and the other forms [float] accepts
    cannot come out of [AMOUNT].) *)
Fixpoint digits_value (acc : N) (s : text) : option N :=
  match s with
  | [] => Some acc
  | c :: t =>
      if is_digit c
      then digits_value (acc * 10 + N.of_nat (code c - 48))%N t
      else None
  end.

Fixpoint split_point (s : text) : text * option text :=
  match s with
  | [] => ([], None)
  | c :: t =>
      if Ascii.eqb c "."
      then ([], Some t)
      else let (i, f) := split_point t in (c :: i, f)
  end.

Definition float_of_text (s : text) : option Q :=
  let (i, f) := split_point s in
  let frac := match f with Some d => d | None => [] end in
  match i ++ frac with
  | [] => None
  | ds =>
      match digits_value 0%N ds with
      | Some n =>
          Some (Qmake (Z.of_N n) (Z.to_pos (10 ^ Z.of_nat (List.length frac))))
      | None => None
      end
  end.

(** [0.01 <= price <= 10000] *)
Definition reasonable (price : Q) : bool :=
  Qle_bool (1 # 100) price && Qle_bool price (10000 # 1).

(** The [for pattern in price_patterns] loop of [extract_price_from_text]:
    a pattern without match, one whose first match is out of range and one
    whose first match does not parse all lead to the next pattern. *)
Fixpoint try_patterns (patterns : list regex) (t : text) : option Q :=
  match patterns with
  | [] => None
  | pattern :: more =>
      match re_findall false pattern t with
      | [] => try_patterns more t
      | m0 :: _ =>
          match float_of_text (remove_commas m0) with
          | Some price =>
              if reasonable price then Some price else try_patterns more t
          | None => try_patterns more t
          end
      end
  end.

Definition extract_price_from_text (t : text) : option Q :=
  match t with
  | [] => None
  | _ => try_patterns price_patterns (normalize t)
  end.

(** ** SKU classification *)

Definition looks_like_sku (t : text) : bool :=
  match t with
  | [] => false
  | _ =>
      if List.length (strip t) <? 3 then false
      else existsb (fun pattern => re_match true pattern (strip t))
                   sku_patterns
  end.

(** ** The browser engine and the effects of a scrape *)

(** An instance of [Exception]; [exn_str e] is [str(e)]. *)
Record exn : Type := Exception { exn_str : text }.

(** What [element.get_text()] does: raise, or return [None] or a [str]. *)
Definition Element : Type := (exn + option text)%type.

(** The browser engine as one scrape sees it.  [None] in an [option exn]
    means that the call returned normally. *)
Record Engine : Type := {
  uc_start : option exn;                      (* uc.start(...) *)
  page_get : text -> option exn;              (* browser.main_tab, page.get(url) *)
  asyncio_sleep : option exn;                 (* asyncio.sleep(3) *)
  select_all : text -> exn + list Element;    (* page.select_all(selector) *)
  browser_stop : option exn                   (* browser.stop() *)
}.

(** The calls made to the engine, in the order they are made. *)
Inductive event : Type :=
| EvStart
| EvGet (url : text)
| EvSleep
| EvSelectAll (selector : text)
| EvGetText
| EvStop.

Inductive Browser : Type := TheBrowser.

(** The local variable [browser] of [scrape_price_and_sku], which the
    [finally] block reads. *)
Record Frame : Type := { browser : option Browser }.

(** Computations that may raise, update the frame and call the engine. *)
Definition M (A : Type) : Type := Frame -> (exn + A) * Frame * list event.

Definition ret {A} (a : A) : M A := fun fr => (inr a, fr, []).

Definition bind {A B} (c : M A) (f : A -> M B) : M B :=
  fun fr =>
    match c fr with
    | (inl e, fr1, tr1) => (inl e, fr1, tr1)
    | (inr a, fr1, tr1) =>
        match f a fr1 with
        | (r, fr2, tr2) => (r, fr2, tr1 ++ tr2)
        end
    end.

Notation "x <- c ;; k" := (bind c (fun x => k))
  (at level 61, c at next level, right associativity).
Notation "c ;;; k" := (bind c (fun _ => k))
  (at level 61, right associativity).

(** A call to the engine: it is recorded, then returns or raises. *)
Definition call {A} (ev : event) (outcome : exn + A) : M A :=
  fun fr => (outcome, fr, [ev]).

Definition returns_or_raises (o : option exn) : exn + unit :=
  match o with Some e => inl e | None => inr tt end.

Definition set_browser (b : Browser) : M unit :=
  fun _ => (inr tt, {| browser := Some b |}, []).

Definition get_browser : M (option Browser) :=
  fun fr => (inr (browser fr), fr, []).

(** [try: body except Exception as e: handler e] *)
Definition try_except {A} (body : M A) (handler : exn -> M A) : M A :=
  fun fr =>
    match body fr with
    | (inl e, fr1, tr1) =>
        match handler e fr1 with
        | (r, fr2, tr2) => (r, fr2, tr1 ++ tr2)
        end
    | ok => ok
    end.

(** [try: body finally: final]: [final] always runs; if it raises, its
    exception replaces the outcome of [body]. *)
Definition try_finally {A} (body : M A) (final : M unit) : M A :=
  fun fr =>
    match body fr with
    | (r, fr1, tr1) =>
        match final fr1 with
        | (inl e, fr2, tr2) => (inl e, fr2, tr1 ++ tr2)
        | (inr _, fr2, tr2) => (r, fr2, tr1 ++ tr2)
        end
    end.

(** ** The result record *)

Record ScrapeResult : Type := {
  success : bool;
  price : option Q;
  sku : option text;
  source : text;
  confidence : Q;
  error : option text
}.

(** Truth value of a Python [float] or [None], and of a [str] or [None]. *)
Definition truthy_float (p : option Q) : bool :=
  match p with Some q => negb (Qeq_bool q 0) | None => false end.

Definition truthy_str (s : option text) : bool :=
  match s with Some (_ :: _) => true | _ => false end.

(** ** The selector search

    The two search loops of [scrape_price_and_sku] have one shape: for each
    selector, inside [try], query the elements, read the text of each in
    turn and, at the first text that is true and passes the test, assign the
    field and [break]; after the inner loop [break] again if the field is
    true; [except Exception: continue].  [test] gives the value assigned;
    [truthy] is the truth value of the field. *)

Section SelectorSearch.

Variable engine : Engine.
Variable V : Type.
Variable test : text -> option V.
Variable truthy : option V -> bool.

(** [for element in elements: ...], from the current value of the field
    to its value when the loop is left. *)
Fixpoint search_elements (elements : list Element) (field : option V)
  : M (option V) :=
  match elements with
  | [] => ret field
  | element :: more =>
      t <- call EvGetText element ;;
      match t with
      | Some (c :: t') =>
          match test (c :: t') with
          | Some v => ret (Some v)
          | None => search_elements more field
          end
      | _ => search_elements more field
      end
  end.

(** [for selector in selectors: try: ... except Exception: continue] *)
Fixpoint search_selectors (selectors : list text) (field : option V)
  : M (option V) :=
  match selectors with
  | [] => ret field
  | selector :: more =>
      r <- try_except
             (elements <- call (EvSelectAll selector)
                               (select_all engine selector) ;;
              field' <- search_elements elements field ;;
              ret (field', truthy field'))
             (fun _ => ret (field, false)) ;;
      if snd r then ret (fst r) else search_selectors more (fst r)
  end.

End SelectorSearch.

(** [extracted_price = self.extract_price_from_text(text)] followed by
    [if extracted_price:]. *)
Definition price_test (t : text) : option Q :=
  let extracted_price := extract_price_from_text t in
  if truthy_float extracted_price then extracted_price else None.

(** [self.looks_like_sku(text)], then [sku = text.strip()]. *)
Definition sku_test (t : text) : option text :=
  if looks_like_sku t then Some (strip t) else None.

(** The selector [[attr op "value"]], as in ['[class*="price"]']. *)
Definition attr_selector (attr op value : string) : text :=
  str "[" ++ str attr ++ str op ++ ["034"%char] ++ str value
      ++ ["034"%char] ++ str "]".

Definition price_selectors : list text :=
  [ attr_selector "data-testid" "=" "price";
    str ".price";
    str ".current-price";
    str ".sale-price";
    str ".product-price";
    attr_selector "class" "*=" "price";
    attr_selector "id" "*=" "price";
    str ".price-current";
    str ".price-now";
    str "[data-price]" ].

Definition sku_selectors : list text :=
  [ attr_selector "data-testid" "=" "sku";
    str ".sku";
    str ".item-number";
    str ".product-sku";
    str ".model-number";
    attr_selector "class" "*=" "sku";
    attr_selector "id" "*=" "sku";
    attr_selector "class" "*=" "item";
    str ".internet-number" ].

Definition find_price (engine : Engine) : M (option Q) :=
  search_selectors engine Q price_test truthy_float price_selectors None.

Definition find_sku (engine : Engine) : M (option text) :=
  search_selectors engine text sku_test truthy_str sku_selectors None.

(** ** The session orchestrator *)

Definition success_result (url : text) (p : option Q) (s : option text)
  : ScrapeResult :=
  {| success := true; price := p; sku := s; source := url;
     confidence := if truthy_float p then 0.8%Q else 0.3%Q;
     error := None |}.

Definition failure_result (url : text) (e : exn) : ScrapeResult :=
  {| success := false; price := None; sku := None; source := url;
     confidence := 0.0%Q; error := Some (exn_str e) |}.

Definition scrape_price_and_sku (engine : Engine) (url : text)
           (material_name : option text) : M ScrapeResult :=
  try_finally
    (try_except
       (call EvStart (returns_or_raises (uc_start engine)) ;;;
        set_browser TheBrowser ;;;
        call (EvGet url) (returns_or_raises (page_get engine url)) ;;;
        call EvSleep (returns_or_raises (asyncio_sleep engine)) ;;;
        p <- find_price engine ;;
        s <- find_sku engine ;;
        ret (success_result url p s))
       (fun e => ret (failure_result url e)))
    (b <- get_browser ;;
     match b with
     | Some _ =>
         try_except
           (call EvStop (returns_or_raises (browser_stop engine)))
           (fun _ => ret tt)
     | None => ret tt
     end).

(** One invocation: [browser = None] at entry.  The outcome is the
    returned record, or an exception that escapes, with the engine calls. *)
Definition run_scrape (engine : Engine) (url : text)
           (material_name : option text)
  : (exn + ScrapeResult) * list event :=
  match scrape_price_and_sku engine url material_name {| browser := None |}
  with
  | (r, _, tr) => (r, tr)
  end.

(** ** The [/scrape] endpoint, as far as it feeds the scraper

    The JSON body of a request, when it is an object whose [url] and
    [materialName] are strings: [None] in a field means that the key is
    missing, and no body at all stands for a body that is [None] or an empty
    object.  [data.get('materialName', '')] turns a missing name into the
    empty string.  Bodies of another shape (a list, a string, a number, a
    [url] that is not a string) are not covered: among them are the
    requests that the handler of the endpoint answers with 500. *)
Record ScrapeRequest : Type := {
  req_url : option text;
  req_materialName : option text
}.

Inductive Response : Type :=
| BadRequest                      (* 400, 'URL is required' *)
| Ok (result : ScrapeResult)      (* 200, the record *)
| ServerError (message : text).   (* 500, an exception escaped *)

Definition scrape_endpoint (engine : Engine) (data : option ScrapeRequest)
  : Response * list event :=
  match data with
  | None => (BadRequest, [])
  | Some d =>
      match req_url d with
      | None => (BadRequest, [])
      | Some url =>
          let material_name :=
            match req_materialName d with Some m => m | None => [] end in
          match run_scrape engine url (Some material_name) with
          | (inr result, tr) => (Ok result, tr)
          | (inl e, tr) => (ServerError (exn_str e), tr)
          end
      end
  end.

(** The same request with another [materialName], or without one. *)
Definition with_material_name (d : ScrapeRequest) (m : option text)
  : ScrapeRequest :=
  {| req_url := req_url d; req_materialName := m |}.

(** ** Notions used to state the properties *)

(** What [run_scrape] hands back to its caller. *)
Definition outcome (engine : Engine) (url : text)
           (material_name : option text) : exn + ScrapeResult :=
  fst (run_scrape engine url material_name).

Definition trace (engine : Engine) (url : text)
           (material_name : option text) : list event :=
  snd (run_scrape engine url material_name).

Definition is_stop (ev : event) : bool :=
  match ev with EvStop => true | _ => false end.

(** How many times the session was released. *)
Definition releases (tr : list event) : nat :=
  List.length (filter is_stop tr).

Definition no_release (tr : list event) : Prop :=
  Forall (fun ev => is_stop ev = false) tr.

(** The number of sessions launched by one scrape: one if [uc.start]
    returns a browser, none if it raises. *)
Definition launched (engine : Engine) : nat :=
  match uc_start engine with Some _ => 0 | None => 1 end.

(** The same engine with another behaviour of [browser.stop()]. *)
Definition with_stop (engine : Engine) (o : option exn) : Engine :=
  {| uc_start := uc_start engine;
     page_get := page_get engine;
     asyncio_sleep := asyncio_sleep engine;
     select_all := select_all engine;
     browser_stop := o |}.

(** The first exception raised before extraction begins, if any. *)
Definition session_error (engine : Engine) (url : text) : option exn :=
  match uc_start engine with
  | Some e => Some e
  | None =>
      match page_get engine url with
      | Some e => Some e
      | None => asyncio_sleep engine
      end
  end.

(** [e] is raised by a call that the scrape makes in one of the phases
    Launching, Navigating, Settling, Extracting. *)
Definition raised_during (engine : Engine) (url : text) (e : exn) : Prop :=
  uc_start engine = Some e
  \/ (uc_start engine = None /\ page_get engine url = Some e)
  \/ (uc_start engine = None /\ page_get engine url = None
      /\ asyncio_sleep engine = Some e)
  \/ (session_error engine url = None
      /\ exists selector,
           In (EvSelectAll selector) (trace engine url None)
           /\ select_all engine selector = inl e).

Section Acceptance.

Variable engine : Engine.
Variable V : Type.
Variable test : text -> option V.

(** The element was read and its text is [None], empty or fails [test]. *)
Definition rejects (el : Element) : Prop :=
  match el with
  | inr (Some (c :: t)) => test (c :: t) = None
  | inr _ => True
  | inl _ => False
  end.

Definition accepts (el : Element) (v : V) : Prop :=
  match el with
  | inr (Some (c :: t)) => test (c :: t) = Some v
  | _ => False
  end.

(** The query of [selector] succeeds and, in document order, [v] is the
    first acceptance among its elements, every element before it having
    been read and rejected. *)
Definition selector_accepts (selector : text) (v : V) : Prop :=
  exists before el after,
    select_all engine selector = inr (before ++ el :: after)
    /\ Forall rejects before
    /\ accepts el v.

Definition selector_yields_nothing (selector : text) : Prop :=
  forall v, ~ selector_accepts selector v.

(** [res] is what the earliest accepting selector of the list gives. *)
Definition earliest_acceptance (selectors : list text) (res : option V)
  : Prop :=
  match res with
  | Some v =>
      exists before selector after,
        selectors = before ++ selector :: after
        /\ Forall selector_yields_nothing before
        /\ selector_accepts selector v
  | None => Forall selector_yields_nothing selectors
  end.

End Acceptance.

Definition no_digit (s : text) : Prop :=
  Forall (fun c => is_digit c = false) s.

(** The digits of [t] are exactly one occurrence of [tok]. *)
Definition only_numeric_token (tok t : text) : Prop :=
  exists pre post, t = pre ++ tok ++ post /\ no_digit pre /\ no_digit post.

(** [tok] is, up to the case of letters, a prefix of [s]. *)
Fixpoint prefix_ci (tok s : text) : bool :=
  match tok, s with
  | [], _ => true
  | a :: tok', x :: s' => Ascii.eqb (lower x) (lower a) && prefix_ci tok' s'
  | _ :: _, [] => false
  end.

Definition noise_tokens : list text :=
  map str ["was"; "orig"; "originally"; "save"; "you save"; "msrp"]%string.

(** Some noise token occurs somewhere in [s]. *)
Fixpoint contains_noise (s : text) : bool :=
  match s with
  | [] => false
  | _ :: t => existsb (fun tok => prefix_ci tok s) noise_tokens
              || contains_noise t
  end.

(** No leading and no trailing whitespace. *)
Definition trimmed (s : text) : Prop :=
  (forall c t, s = c :: t -> is_space c = false)
  /\ (forall c t, s = t ++ [c] -> is_space c = false).

(** A matched amount that parses to a price in range, and one that does
    not parse or parses to a price out of range. *)
Definition acceptable (m0 : text) (p : Q) : Prop :=
  float_of_text (remove_commas m0) = Some p /\ reasonable p = true.

Definition unacceptable (m0 : text) : Prop :=
  float_of_text (remove_commas m0) = None
  \/ exists p, float_of_text (remove_commas m0) = Some p
               /\ reasonable p = false.

(** Nothing was found, or what was found first is unacceptable. *)
Definition rejected_first (found : list text) : Prop :=
  match found with [] => True | m0 :: _ => unacceptable m0 end.

(** [pattern] has a match in [t] and the first one is acceptable, with
    value [p]; whatever else it matches later plays no role. *)
Definition first_match_accepted (pattern : regex) (t : text) (p : Q) : Prop :=
  exists m0 later,
    re_findall false pattern t = m0 :: later /\ acceptable m0 p.

(** [pattern] has no match in [t], or its first match is unacceptable. *)
Definition first_match_rejected (pattern : regex) (t : text) : Prop :=
  rejected_first (re_findall false pattern t).

(** The reading under which an out-of-range first match of the first
    matching pattern ends the extraction. *)
Definition first_match_is_final : Prop :=
  forall (t : text) before pattern after m0 later p,
    t <> [] ->
    price_patterns = before ++ pattern :: after ->
    Forall (fun q => re_findall false q (normalize t) = []) before ->
    re_findall false pattern (normalize t) = m0 :: later ->
    float_of_text (remove_commas m0) = Some p ->
    reasonable p = false ->
    extract_price_from_text t = None.


Definition every_exception_yields_failure : Prop :=
  forall engine url material_name e,
    raised_during engine url e ->
    exists msg,
      msg <> []
      /\ outcome engine url material_name
         = inr {| success := false; price := None; sku := None;
                  source := url; confidence := 0.0%Q;
                  error := Some msg |}.

(** ** Notions used in the proofs *)

(** No character of [tok] is, up to case, the character [d]. *)
Definition ci_free (d : ascii) (tok : text) : Prop :=
  Forall (fun a => Ascii.eqb (lower d) (lower a) = false) tok.

(** The pattern contains no [^]. *)
Fixpoint anchor_free (r : regex) : bool :=
  match r with
  | Bol => false
  | Seq r1 r2 | Alt r1 r2 => anchor_free r1 && anchor_free r2
  | Rep _ _ r1 | Group r1 => anchor_free r1
  | _ => true
  end.

(** The pattern contains no group. *)
Fixpoint group_free (r : regex) : bool :=
  match r with
  | Group _ => false
  | Seq r1 r2 | Alt r1 r2 => group_free r1 && group_free r2
  | Rep _ _ r1 => group_free r1
  | _ => true
  end.

(** The state [st] seen from an attempt that had already consumed [n]
    characters and captured [g]. *)
Definition shift (n : nat) (g : option text) (st : mstate) : mstate :=
  MState (n + consumed st)
         (match cap st with Some c => Some c | None => g end)
         (rest st).

(** The text does not begin with a digit. *)
Definition no_digit_head (s : text) : Prop :=
  match s with [] => True | c :: _ => is_digit c = false end.

(** How a text without digit can begin, as far as [AMOUNT] looks. *)
Inductive beginning : text -> Prop :=
| BeginEmpty : beginning []
| BeginOther c t :
    is_digit c = false -> Ascii.eqb c "." = false -> Ascii.eqb c "," = false ->
    beginning (c :: t)
| BeginPointEnd : beginning ["."%char]
| BeginPoint c t : is_digit c = false -> beginning ("."%char :: c :: t)
| BeginCommaEnd : beginning [","%char]
| BeginComma c t : is_digit c = false -> beginning (","%char :: c :: t).

(** The numeric token of the out-of-range example. *)
Definition BLOCK : text := str "15000".

(** ** Notions used for the further properties *)

(** The words a pattern can consume, whatever surrounds them ([^] and [$]
    consume nothing). *)
Fixpoint lang (ic : bool) (r : regex) (u : text) : Prop :=
  match r with
  | Eps | Bol | Eol => u = []
  | Lit c => exists x, u = [x] /\ lit_matches ic c x = true
  | Digit => exists x, u = [x] /\ is_digit x = true
  | Space => exists x, u = [x] /\ is_space x = true
  | Class rs => exists x, u = [x] /\ class_matches ic rs x = true
  | Seq r1 r2 => exists u1 u2, u = u1 ++ u2 /\ lang ic r1 u1 /\ lang ic r2 u2
  | Alt r1 r2 => lang ic r1 u \/ lang ic r2 u
  | Rep lo hi r1 =>
      exists us, u = List.concat us /\ Forall (lang ic r1) us
                 /\ lo <= List.length us
                 /\ match hi with Some h => List.length us <= h | None => True end
  | Group r1 => lang ic r1 u
  end.

(** [st'] is [st] after the word [u]. *)
Definition advances (st st' : mstate) (u : text) : Prop :=
  rest st = u ++ rest st' /\ consumed st' = consumed st + List.length u.

Definition is_alpha (c : ascii) : bool := is_upper c || is_lower c.
Definition is_alnum (c : ascii) : bool := is_digit c || is_alpha c.

(** The pattern ends with [$]. *)
Fixpoint ends_eol (r : regex) : bool :=
  match r with
  | Eol => true
  | Seq _ r2 => ends_eol r2
  | _ => false
  end.

(** The two shapes of an accepted SKU: at least three letters or digits;
    or at least three digits, a hyphen, and at least one letter or digit. *)
Definition sku_shape (s : text) : Prop :=
  (3 <= List.length s /\ forallb is_alnum s = true)
  \/ exists u1 u2,
       s = u1 ++ "-"%char :: u2
       /\ 3 <= List.length u1 /\ forallb is_digit u1 = true
       /\ u2 <> [] /\ forallb is_alnum u2 = true.


(** No letter, or nothing at all. *)
Definition not_letter (o : option ascii) : bool :=
  match o with Some x => negb (is_alpha x) | None => true end.

(** Every occurrence of a noise token in [s] is a whole word: the character
    before it and the character after it, where there is one, is no ASCII
    letter.  [prev] is the character before [s]. *)
Fixpoint whole_words_from (prev : option ascii) (s : text) : bool :=
  match s with
  | [] => true
  | c :: t =>
      forallb (fun tok =>
                 negb (prefix_ci tok s)
                 || (not_letter prev
                     && not_letter (hd_error (skipn (List.length tok) s))))
              noise_tokens
      && whole_words_from (Some c) t
  end.


(** The last character of [pre], or [prev] when [pre] is empty. *)
Definition char_before (prev : option ascii) (pre : text) : option ascii :=
  fold_left (fun _ x => Some x) pre prev.




(** A call that queries the page. *)
Definition is_query (ev : event) : bool :=
  match ev with EvSelectAll _ | EvGetText => true | _ => false end.

(** The selectors queried, in the order of the calls. *)
Fixpoint queried (tr : list event) : list text :=
  match tr with
  | [] => []
  | EvSelectAll selector :: more => selector :: queried more
  | _ :: more => queried more
  end.

(** ** Sample engines *)

Definition sample_url : text := str "https://shop.example/item/1".

Definition sample_result : ScrapeResult :=
  {| success := true;
     price := Some 45.00%Q;
     sku := Some (str "SKU12345");
     source := sample_url;
     confidence := 0.8%Q;
     error := None |}.

Definition text_eqb (a b : text) : bool :=
  if list_eq_dec ascii_dec a b then true else false.

(** A page with one [.price] element and two [.sku] elements; every other
    selector is refused by the engine, and [browser.stop()] raises. *)
Definition sample_page : Engine :=
  {| uc_start := None;
     page_get := fun _ => None;
     asyncio_sleep := None;
     select_all := fun selector =>
       if text_eqb selector (str ".price")
       then inr [inr (Some (str "Sale Price: $45.00 (was $60.00)"))]
       else if text_eqb selector (str ".sku")
       then inr [inr None; inr (Some (str " SKU12345 "))]
       else inl (Exception (str "invalid selector"));
     browser_stop := Some (Exception (str "stop failed")) |}.

(** The browser cannot be launched, and the exception has no message. *)
Definition no_browser : Engine :=
  {| uc_start := Some (Exception []);
     page_get := fun _ => None;
     asyncio_sleep := None;
     select_all := fun _ => inr [];
     browser_stop := None |}.

(** The page cannot be reached. *)
Definition unreachable : Engine :=
  {| uc_start := None;
     page_get := fun _ => Some (Exception (str "net::ERR_NAME_NOT_RESOLVED"));
     asyncio_sleep := None;
     select_all := fun _ => inr [];
     browser_stop := None |}.

(** Every selector query raises. *)
Definition broken_dom : Engine :=
  {| uc_start := None;
     page_get := fun _ => None;
     asyncio_sleep := None;
     select_all := fun _ => inl (Exception (str "DOM error"));
     browser_stop := None |}.

(** * Properties *)

(** ** The scenarios of the specification, evaluated *)

Example extract_dollar_amount :
  extract_price_from_text (str "Now only $19.99!") = Some 19.99%Q.
Proof. vm_compute. reflexivity. Qed.

Example extract_after_noise :
  normalize (str "was $50 now $19.99") = str " $50 now $19.99"
  /\ extract_price_from_text (str "was $50 now $19.99") = Some 50%Q.
Proof. split; vm_compute; reflexivity. Qed.

Example extract_thousands :
  extract_price_from_text (str "1,234.56 USD") = Some 1234.56%Q.
Proof. vm_compute. reflexivity. Qed.

Example looks_like_sku_samples :
  map (fun s => looks_like_sku (str s))
      ["123456"; "AB"; "123-ABC"; "SKU"; " SKU12345 "; "abc def"]%string
  = [true; false; true; true; true; false].
Proof. vm_compute. reflexivity. Qed.

Example scrape_sample_page :
  run_scrape sample_page sample_url None
  = (inr sample_result,
     [EvStart; EvGet sample_url; EvSleep;
      EvSelectAll (attr_selector "data-testid" "=" "price");
      EvSelectAll (str ".price"); EvGetText;
      EvSelectAll (attr_selector "data-testid" "=" "sku");
      EvSelectAll (str ".sku"); EvGetText; EvGetText;
      EvStop]).
Proof. vm_compute. reflexivity. Qed.

Example scrape_unreachable :
  run_scrape unreachable sample_url None
  = (inr {| success := false; price := None; sku := None;
            source := sample_url; confidence := 0.0%Q;
            error := Some (str "net::ERR_NAME_NOT_RESOLVED") |},
     [EvStart; EvGet sample_url; EvStop]).
Proof. vm_compute. reflexivity. Qed.

(** ** The selector search *)

Lemma split_middle {A} (before after b a : list A) (x y : A) :
  before ++ x :: after = b ++ y :: a ->
  In y before \/ (x = y /\ before = b /\ after = a) \/ In x b.
Proof.
  revert b. induction before as [|h before IH]; intros [|h' b] H; simpl in *.
  - injection H as -> ->. right; left; auto.
  - injection H as -> _. right; right; left; reflexivity.
  - injection H as -> _. left; left; reflexivity.
  - injection H as -> H. destruct (IH _ H) as [Hin | [(-> & -> & ->) | Hin]].
    + left; right; exact Hin.
    + right; left; auto.
    + right; right; right; exact Hin.
Qed.

Section SearchFacts.

Variable engine : Engine.
Variable V : Type.
Variable test : text -> option V.
Variable truthy : option V -> bool.

Hypothesis truthy_test : forall t v, test t = Some v -> truthy (Some v) = true.
Hypothesis truthy_none : truthy None = false.

Lemma accepts_not_rejects el v : accepts V test el v -> ~ rejects V test el.
Proof.
  destruct el as [e | [[|c t] |]]; simpl; try tauto.
  intros H1 H2; congruence.
Qed.

(** The inner loop: it stops at the first acceptance, runs to the end
    when every element is rejected, and is left by the exception of the
    first element whose text cannot be read. *)
Lemma search_elements_cases (elements : list Element) (fr : Frame) :
  exists tr, no_release tr /\
    ((exists before el after v,
        elements = before ++ el :: after
        /\ Forall (rejects V test) before /\ accepts V test el v
        /\ search_elements V test elements None fr = (inr (Some v), fr, tr))
     \/ (Forall (rejects V test) elements
         /\ search_elements V test elements None fr = (inr None, fr, tr))
     \/ (exists before e after,
           elements = before ++ inl e :: after
           /\ Forall (rejects V test) before
           /\ search_elements V test elements None fr = (inl e, fr, tr))).
Proof.
  induction elements as [|el more IH].
  - exists []. split; [constructor|]. right; left. split; [constructor|reflexivity].
  - destruct IH as (tr & Hq & IH).
    assert (Hskip : rejects V test el ->
              search_elements V test (el :: more) None fr
              = (let '(r, fr', tr') := search_elements V test more None fr in
                 (r, fr', EvGetText :: tr'))).
    { intros Hrej. destruct el as [e | [[|c t] |]]; simpl in Hrej; try tauto;
        simpl; unfold bind, call; simpl; try rewrite Hrej;
        destruct (search_elements V test more None fr) as [[r fr'] tr'];
        reflexivity. }
    destruct el as [e | [[|c t] |]] eqn:Hel.
    + exists [EvGetText]. split; [repeat constructor|].
      right; right. exists [], e, more. repeat split; constructor.
    + exists (EvGetText :: tr). split; [constructor; [reflexivity|exact Hq]|].
      specialize (Hskip I).
      destruct IH as [(b & x & a & v & -> & Hb & Hx & Hs) | [(Hall & Hs) | (b & e & a & -> & Hb & Hs)]];
        rewrite Hs in Hskip.
      * left. exists (inr (Some []) :: b), x, a, v.
        repeat split; auto; constructor; simpl; auto.
      * right; left. split; auto; constructor; simpl; auto.
      * right; right. exists (inr (Some []) :: b), e, a.
        repeat split; auto; constructor; simpl; auto.
    + destruct (test (c :: t)) as [v|] eqn:Ht.
      * exists [EvGetText]. split; [repeat constructor|].
        left. exists [], (inr (Some (c :: t))), more, v.
        repeat split; [constructor|exact Ht|].
        simpl. unfold bind, call; simpl. rewrite Ht. reflexivity.
      * exists (EvGetText :: tr). split; [constructor; [reflexivity|exact Hq]|].
        specialize (Hskip Ht).
        destruct IH as [(b & x & a & v & -> & Hb & Hx & Hs) | [(Hall & Hs) | (b & e & a & -> & Hb & Hs)]];
          rewrite Hs in Hskip.
        -- left. exists (inr (Some (c :: t)) :: b), x, a, v.
           repeat split; auto; constructor; simpl; auto.
        -- right; left. split; auto; constructor; simpl; auto.
        -- right; right. exists (inr (Some (c :: t)) :: b), e, a.
           repeat split; auto; constructor; simpl; auto.
    + exists (EvGetText :: tr). split; [constructor; [reflexivity|exact Hq]|].
      specialize (Hskip I).
      destruct IH as [(b & x & a & v & -> & Hb & Hx & Hs) | [(Hall & Hs) | (b & e & a & -> & Hb & Hs)]];
        rewrite Hs in Hskip.
      * left. exists (inr None :: b), x, a, v.
        repeat split; auto; constructor; simpl; auto.
      * right; left. split; auto; constructor; simpl; auto.
      * right; right. exists (inr None :: b), e, a.
        repeat split; auto; constructor; simpl; auto.
Qed.

Lemma all_rejected_yields_nothing selector elements :
  select_all engine selector = inr elements ->
  Forall (rejects V test) elements ->
  selector_yields_nothing engine V test selector.
Proof.
  intros Hsel Hall v (b & el & a & Hsel' & _ & Hacc).
  rewrite Hsel in Hsel'. injection Hsel' as ->.
  apply (accepts_not_rejects el v Hacc).
  rewrite Forall_forall in Hall. apply Hall, in_elt.
Qed.

Lemma read_failure_yields_nothing selector before e after :
  select_all engine selector = inr (before ++ inl e :: after) ->
  Forall (rejects V test) before ->
  selector_yields_nothing engine V test selector.
Proof.
  intros Hsel Hb v (b & el & a & Hsel' & Hb' & Hacc).
  rewrite Hsel in Hsel'. injection Hsel' as Heq.
  rewrite Forall_forall in Hb, Hb'.
  destruct (split_middle _ _ _ _ _ _ Heq) as [Hin | [(<- & _) | Hin]].
  - exact (accepts_not_rejects el v Hacc (Hb _ Hin)).
  - exact Hacc.
  - exact (Hb' _ Hin).
Qed.

Lemma query_failure_yields_nothing selector e :
  select_all engine selector = inl e ->
  selector_yields_nothing engine V test selector.
Proof.
  intros Hsel v (b & el & a & Hsel' & _). congruence.
Qed.

(** The outer loop never raises, leaves the frame alone, only queries
    the page, and returns the earliest acceptance. *)
Lemma search_selectors_spec (selectors : list text) (fr : Frame) :
  exists res tr,
    search_selectors engine V test truthy selectors None fr
    = (inr res, fr, tr)
    /\ no_release tr
    /\ earliest_acceptance engine V test selectors res.
Proof.
  induction selectors as [|selector more IH].
  - exists None, []. repeat split; constructor.
  - destruct IH as (res & tr & Hs & Hq & Hres).
    simpl. unfold bind at 1. unfold try_except, bind at 1, call at 1.
    destruct (select_all engine selector) as [e | elements] eqn:Hsel.
    + simpl. rewrite Hs.
      exists res, (((EvSelectAll selector :: []) ++ []) ++ tr).
      repeat split.
      * constructor; [reflexivity|exact Hq].
      * destruct res as [v|]; simpl in *.
        -- destruct Hres as (b & s & a & -> & Hb & Hacc).
           exists (selector :: b), s, a. repeat split; auto.
           constructor; [eapply query_failure_yields_nothing; eauto|exact Hb].
        -- constructor; [eapply query_failure_yields_nothing; eauto|exact Hres].
    + destruct (search_elements_cases elements fr) as (tre & Hqe & Hcases).
      destruct Hcases as [(b & x & a & v & Hel & Hb & Hx & Hse) | [(Hall & Hse) | (b & e & a & Hel & Hb & Hse)]];
        unfold bind; rewrite Hse; simpl.
      * assert (Htr : truthy (Some v) = true).
        { destruct x as [e | [[|c t] |]]; simpl in Hx; try tauto.
          exact (truthy_test _ _ Hx). }
        rewrite Htr. simpl. eexists (Some v), _. split; [reflexivity|]. split.
        -- constructor; [reflexivity|].
           rewrite !app_nil_r. exact Hqe.
        -- simpl. exists [], selector, more. repeat split; [constructor|].
           exists b, x, a. subst elements. auto.
      * rewrite truthy_none. simpl. rewrite Hs.
        eexists res, _. split; [reflexivity|]. split.
        -- constructor; [reflexivity|]. rewrite !app_nil_r.
           apply Forall_app; auto.
        -- assert (Hy : selector_yields_nothing engine V test selector)
             by (eapply all_rejected_yields_nothing; eauto).
           destruct res as [v|]; simpl in *.
           ++ destruct Hres as (b' & s & a' & -> & Hb' & Hacc).
              exists (selector :: b'), s, a'. repeat split; auto.
           ++ constructor; auto.
      * rewrite Hs.
        eexists res, _. split; [reflexivity|]. split.
        -- constructor; [reflexivity|]. rewrite !app_nil_r.
           apply Forall_app; auto.
        -- assert (Hy : selector_yields_nothing engine V test selector)
             by (subst elements; eapply read_failure_yields_nothing; eauto).
           destruct res as [v|]; simpl in *.
           ++ destruct Hres as (b' & s & a' & -> & Hb' & Hacc).
              exists (selector :: b'), s, a'. repeat split; auto.
           ++ constructor; auto.
Qed.

End SearchFacts.

(** ** Whitespace stripping *)

Lemma lstrip_split (s : text) :
  exists ws, s = ws ++ lstrip s /\ Forall (fun c => is_space c = true) ws.
Proof.
  induction s as [|c t (ws & Heq & Hws)]; simpl.
  - exists []. split; [reflexivity|constructor].
  - destruct (is_space c) eqn:Hc.
    + exists (c :: ws). split; [simpl; congruence|constructor; assumption].
    + exists []. split; [reflexivity|constructor].
Qed.

Lemma lstrip_head (s : text) c t : lstrip s = c :: t -> is_space c = false.
Proof.
  induction s as [|x s IH]; simpl; [discriminate|].
  destruct (is_space x) eqn:Hx; [exact IH|].
  intros H; injection H as <- _. exact Hx.
Qed.

Lemma lstrip_fixed (s : text) :
  (forall c t, s = c :: t -> is_space c = false) -> lstrip s = s.
Proof.
  destruct s as [|c t]; simpl; [reflexivity|].
  intros H. rewrite (H c t eq_refl). reflexivity.
Qed.

Lemma lstrip_idempotent (s : text) : lstrip (lstrip s) = lstrip s.
Proof. apply lstrip_fixed. intros c t. apply lstrip_head. Qed.

Lemma rstrip_split (s : text) :
  exists ws, s = rstrip s ++ ws /\ Forall (fun c => is_space c = true) ws.
Proof.
  destruct (lstrip_split (rev s)) as (ws & Heq & Hws).
  exists (rev ws). split.
  - unfold rstrip. rewrite <- rev_app_distr, <- Heq, rev_involutive. reflexivity.
  - apply Forall_rev. exact Hws.
Qed.

Lemma rstrip_idempotent (s : text) : rstrip (rstrip s) = rstrip s.
Proof.
  unfold rstrip. rewrite rev_involutive, lstrip_idempotent. reflexivity.
Qed.

Lemma rstrip_last (s : text) c t : rstrip s = t ++ [c] -> is_space c = false.
Proof.
  unfold rstrip. intros H.
  apply (f_equal (@rev ascii)) in H.
  rewrite rev_involutive, rev_app_distr in H. simpl in H.
  exact (lstrip_head _ _ _ H).
Qed.

(** Dropping trailing whitespace keeps a first character that is not
    whitespace. *)
Lemma rstrip_keeps_head (s : text) :
  (forall c t, s = c :: t -> is_space c = false) ->
  forall c t, rstrip s = c :: t -> is_space c = false.
Proof.
  intros Hs c t Hr.
  destruct (rstrip_split s) as (ws & Heq & _).
  rewrite Hr in Heq. simpl in Heq. exact (Hs _ _ Heq).
Qed.

Lemma strip_trimmed (s : text) : trimmed (strip s).
Proof.
  unfold strip. split.
  - apply rstrip_keeps_head. intros c t. apply lstrip_head.
  - intros c t. apply rstrip_last.
Qed.

Lemma strip_idempotent (s : text) : strip (strip s) = strip s.
Proof.
  unfold strip at 1.
  rewrite (lstrip_fixed (strip s)) by apply strip_trimmed.
  unfold strip. apply rstrip_idempotent.
Qed.

(** ** The tests applied to the text of an element *)

Lemma try_patterns_reasonable (patterns : list regex) (t : text) (p : Q) :
  try_patterns patterns t = Some p -> reasonable p = true.
Proof.
  induction patterns as [|pattern more IH]; simpl; [discriminate|].
  destruct (re_findall false pattern t) as [|m0 later]; [exact IH|].
  destruct (float_of_text (remove_commas m0)) as [q|]; [|exact IH].
  destruct (reasonable q) eqn:Hq; [|exact IH].
  intros H; injection H as <-. exact Hq.
Qed.

Lemma extract_price_reasonable (t : text) (p : Q) :
  extract_price_from_text t = Some p -> reasonable p = true.
Proof.
  destruct t as [|c t]; unfold extract_price_from_text; [discriminate|].
  apply try_patterns_reasonable.
Qed.

Lemma reasonable_bounds (p : Q) :
  reasonable p = true -> (1 # 100 <= p)%Q /\ (p <= 10000 # 1)%Q.
Proof.
  unfold reasonable. rewrite andb_true_iff, !Qle_bool_iff. trivial.
Qed.

Lemma reasonable_truthy (p : Q) :
  reasonable p = true -> truthy_float (Some p) = true.
Proof.
  intros H. destruct (reasonable_bounds p H) as [Hlo _].
  simpl. apply negb_true_iff.
  destruct (Qeq_bool p 0) eqn:E; [|reflexivity].
  apply Qeq_bool_iff in E. rewrite E in Hlo.
  exfalso. revert Hlo. unfold Qle. simpl. lia.
Qed.

Lemma price_test_some (t : text) (p : Q) :
  price_test t = Some p -> extract_price_from_text t = Some p.
Proof.
  unfold price_test.
  destruct (truthy_float (extract_price_from_text t)); [trivial|discriminate].
Qed.

Lemma price_test_truthy (t : text) (p : Q) :
  price_test t = Some p -> truthy_float (Some p) = true.
Proof.
  intros H. apply reasonable_truthy, (extract_price_reasonable t).
  apply price_test_some, H.
Qed.

Lemma looks_like_sku_length (t : text) :
  looks_like_sku t = true -> 3 <= List.length (strip t).
Proof.
  unfold looks_like_sku. destruct t as [|c t]; [discriminate|].
  destruct (List.length (strip (c :: t)) <? 3) eqn:E; [discriminate|].
  intros _. apply Nat.ltb_ge in E. exact E.
Qed.

Lemma looks_like_sku_strip (t : text) :
  looks_like_sku t = true -> looks_like_sku (strip t) = true.
Proof.
  intros H. pose proof (looks_like_sku_length t H) as Hlen.
  unfold looks_like_sku in *. destruct t as [|c t]; [discriminate|].
  destruct (strip (c :: t)) as [|c' t'] eqn:Hs; [simpl in Hlen; lia|].
  assert (Hfix : strip (c' :: t') = c' :: t')
    by (rewrite <- Hs; apply strip_idempotent).
  rewrite Hfix. exact H.
Qed.

Lemma sku_test_some (t s : text) :
  sku_test t = Some s -> s = strip t /\ looks_like_sku t = true.
Proof.
  unfold sku_test. destruct (looks_like_sku t); [|discriminate].
  intros H; injection H as <-. auto.
Qed.

Lemma sku_test_truthy (t s : text) :
  sku_test t = Some s -> truthy_str (Some s) = true.
Proof.
  intros H. destruct (sku_test_some t s H) as [-> Hl].
  apply looks_like_sku_length in Hl.
  destruct (strip t); [simpl in Hl; lia|reflexivity].
Qed.

Lemma find_price_spec (engine : Engine) (fr : Frame) :
  exists res tr,
    find_price engine fr = (inr res, fr, tr)
    /\ Forall (fun ev => is_stop ev = false) tr
    /\ earliest_acceptance engine Q price_test price_selectors res.
Proof.
  apply search_selectors_spec; [exact price_test_truthy|reflexivity].
Qed.

Lemma find_sku_spec (engine : Engine) (fr : Frame) :
  exists res tr,
    find_sku engine fr = (inr res, fr, tr)
    /\ Forall (fun ev => is_stop ev = false) tr
    /\ earliest_acceptance engine text sku_test sku_selectors res.
Proof.
  apply search_selectors_spec; [exact sku_test_truthy|reflexivity].
Qed.

(** ** One scrape *)

Arguments find_price : simpl never.
Arguments find_sku : simpl never.

(** Every invocation returns a record: the failure record of the first
    exception raised before extraction, otherwise the success record of
    the two searches; the session, if launched, is released once. *)
Lemma run_scrape_spec (engine : Engine) (url : text) (mn : option text) :
  exists r tr,
    run_scrape engine url mn = (inr r, tr)
    /\ releases tr = launched engine
    /\ match session_error engine url with
       | Some e => r = failure_result url e
       | None =>
           exists p s,
             r = success_result url p s
             /\ earliest_acceptance engine Q price_test price_selectors p
             /\ earliest_acceptance engine text sku_test sku_selectors s
       end.
Proof.
  unfold run_scrape, scrape_price_and_sku, session_error, launched.
  unfold try_finally, try_except, bind, call, set_browser, get_browser, ret,
    returns_or_raises.
  destruct (uc_start engine) as [e|].
  { simpl. eexists _, _. split; [reflexivity|]. split; reflexivity. }
  destruct (page_get engine url) as [e|].
  { destruct (browser_stop engine); simpl; eexists _, _;
      (split; [reflexivity|]); split; reflexivity. }
  destruct (asyncio_sleep engine) as [e|].
  { destruct (browser_stop engine); simpl; eexists _, _;
      (split; [reflexivity|]); split; reflexivity. }
  destruct (find_price_spec engine {| browser := Some TheBrowser |})
    as (p & trp & Hp & Hqp & Hep).
  destruct (find_sku_spec engine {| browser := Some TheBrowser |})
    as (s & trs & Hs & Hqs & Hes).
  simpl. rewrite Hp, Hs. simpl.
  assert (Hrel : forall o : list event,
             releases (EvStart :: EvGet url :: EvSleep :: (trp ++ trs ++ []) ++ o)
             = releases o).
  { intros o. unfold releases. simpl. rewrite !filter_app. simpl.
    rewrite !length_app.
    assert (Hz : forall l, Forall (fun ev => is_stop ev = false) l ->
                           List.length (filter is_stop l) = 0).
    { induction 1 as [|ev l Hev _ IH]; simpl; [reflexivity|].
      rewrite Hev. exact IH. }
    rewrite (Hz _ Hqp), (Hz _ Hqs). reflexivity. }
  destruct (browser_stop engine); simpl;
    (eexists _, _; split; [reflexivity|]; split;
     [rewrite Hrel; reflexivity | exists p, s; auto]).
Qed.

Lemma earliest_acceptance_tested (engine : Engine) (V : Type)
      (test : text -> option V) (selectors : list text) (v : V) :
  earliest_acceptance engine V test selectors (Some v) ->
  exists t, test t = Some v.
Proof.
  intros (b & s & a & _ & _ & (eb & el & ea & _ & _ & Hacc)).
  destruct el as [e | [[|c t] |]]; simpl in Hacc; try tauto.
  exists (c :: t). exact Hacc.
Qed.

Lemma bind_ext {A B} (c : M A) (f g : A -> M B) (fr : Frame) :
  (forall a fr', f a fr' = g a fr') -> bind c f fr = bind c g fr.
Proof.
  intros H. unfold bind. destruct (c fr) as [[[e | a] fr1] tr1]; [reflexivity|].
  rewrite H. reflexivity.
Qed.

Lemma with_stop_search (engine : Engine) (o : option exn) (V : Type)
      (test : text -> option V) (truthy : option V -> bool)
      (selectors : list text) :
  forall field fr,
    search_selectors (with_stop engine o) V test truthy selectors field fr
    = search_selectors engine V test truthy selectors field fr.
Proof.
  induction selectors as [|selector more IH]; intros field fr; [reflexivity|].
  simpl.
  change (select_all (with_stop engine o) selector)
    with (select_all engine selector).
  apply bind_ext. intros r fr'.
  destruct (snd r); [reflexivity|apply IH].
Qed.

Lemma find_price_with_stop (engine : Engine) (o : option exn) (fr : Frame) :
  find_price (with_stop engine o) fr = find_price engine fr.
Proof. apply with_stop_search. Qed.

Lemma find_sku_with_stop (engine : Engine) (o : option exn) (fr : Frame) :
  find_sku (with_stop engine o) fr = find_sku engine fr.
Proof. apply with_stop_search. Qed.

(** ** The claims about the orchestrator *)

(** C1.  Every scrape returns a record (no exception escapes).  When
    [success] is false, [price] and [sku] are absent and [confidence] is 0;
    when [success] is true, [confidence] is 0.8 if [price] is present and
    0.3 if it is absent, whatever [sku] is. *)
Theorem scrape_result_invariant (engine : Engine) (url : text)
        (material_name : option text) :
  exists r,
    outcome engine url material_name = inr r
    /\ (success r = false ->
        price r = None /\ sku r = None /\ (confidence r == 0)%Q)
    /\ (success r = true ->
        (price r <> None -> (confidence r == 0.8)%Q)
        /\ (price r = None -> (confidence r == 0.3)%Q)).
Proof.
  destruct (run_scrape_spec engine url material_name)
    as (r & tr & Hrun & _ & Hr).
  exists r. split; [unfold outcome; rewrite Hrun; reflexivity|].
  destruct (session_error engine url) as [e|].
  - subst r. split; [intros _; repeat split; reflexivity|discriminate].
  - destruct Hr as (p & s & -> & Hp & _). split; [discriminate|].
    intros _. destruct p as [v|]; simpl.
    + destruct (earliest_acceptance_tested _ _ _ _ _ Hp) as (t & Ht).
      pose proof (price_test_truthy t v Ht) as Htr. simpl in Htr.
      rewrite Htr. split; [reflexivity|discriminate].
    + split; [intros H; exfalso; apply H; reflexivity|reflexivity].
Qed.

(** C3, as the code has it.  An exception raised while launching,
    navigating or settling is not propagated: the scrape returns the
    failure record whose [error] is [str(e)], whatever that string is.
    When none is raised there the scrape returns a success record, so the
    exceptions of the extraction phase never produce a failure. *)
Theorem session_error_yields_failure (engine : Engine) (url : text)
        (material_name : option text) :
  match session_error engine url with
  | Some e =>
      outcome engine url material_name
      = inr {| success := false; price := None; sku := None; source := url;
               confidence := 0.0%Q; error := Some (exn_str e) |}
  | None =>
      exists r, outcome engine url material_name = inr r /\ success r = true
  end.
Proof.
  destruct (run_scrape_spec engine url material_name)
    as (r & tr & Hrun & _ & Hr).
  unfold outcome. rewrite Hrun. simpl.
  destruct (session_error engine url) as [e|].
  - subst r. reflexivity.
  - destruct Hr as (p & s & -> & _). eexists. split; reflexivity.
Qed.

(** C3 as stated fails: a launch failure whose exception has an empty
    message gives a failure record with an empty [error]. *)
Lemma empty_message_failure : ~ every_exception_yields_failure.
Proof.
  intros H.
  destruct (H no_browser sample_url None (Exception []))
    as (msg & Hne & Hout).
  - left. reflexivity.
  - vm_compute in Hout. injection Hout as Hmsg. apply Hne. symmetry. exact Hmsg.
Qed.

(** An exception raised by every selector query of the extraction phase
    leaves a success record. *)
Example extraction_errors_are_swallowed :
  raised_during broken_dom sample_url (Exception (str "DOM error"))
  /\ outcome broken_dom sample_url None
     = inr {| success := true; price := None; sku := None;
              source := sample_url; confidence := 0.3%Q; error := None |}.
Proof.
  split; [|vm_compute; reflexivity].
  right; right; right. split; [reflexivity|].
  exists (str ".price"). split; [vm_compute; tauto|reflexivity].
Qed.

(** C4.  The session is released as many times as it was launched: once
    when [uc.start] returned a browser, on every path, and whatever
    [browser.stop()] does the scrape returns the same record and makes the
    same calls. *)
Theorem session_released_once (engine : Engine) (url : text)
        (material_name : option text) :
  releases (trace engine url material_name) = launched engine
  /\ forall o : option exn,
       run_scrape (with_stop engine o) url material_name
       = run_scrape engine url material_name.
Proof.
  split.
  - destruct (run_scrape_spec engine url material_name)
      as (r & tr & Hrun & Hrel & _).
    unfold trace. rewrite Hrun. exact Hrel.
  - intros o.
    unfold run_scrape, scrape_price_and_sku.
    unfold try_finally, try_except, bind, call, set_browser, get_browser, ret,
      returns_or_raises.
    change (uc_start (with_stop engine o)) with (uc_start engine).
    change (page_get (with_stop engine o)) with (page_get engine).
    change (asyncio_sleep (with_stop engine o)) with (asyncio_sleep engine).
    change (browser_stop (with_stop engine o)) with o.
    destruct (uc_start engine); [reflexivity|].
    destruct (page_get engine url);
      [destruct o, (browser_stop engine); reflexivity|].
    destruct (asyncio_sleep engine);
      [destruct o, (browser_stop engine); reflexivity|].
    destruct (find_price_spec engine {| browser := Some TheBrowser |})
      as (p & trp & Hp & _).
    destruct (find_sku_spec engine {| browser := Some TheBrowser |})
      as (s & trs & Hs & _).
    simpl. rewrite !find_price_with_stop, Hp. simpl.
    rewrite !find_sku_with_stop, Hs. simpl.
    destruct o, (browser_stop engine); reflexivity.
Qed.

(** C5.  For each field the search returns, without raising, the value
    accepted by the earliest selector that yields an acceptance (the first
    acceptance among its elements in document order), and nothing when no
    selector yields one; a selector whose query raises yields nothing, and
    the search goes on past it. *)
Theorem selector_search_earliest (engine : Engine) (fr : Frame) :
  (exists res tr,
     find_price engine fr = (inr res, fr, tr)
     /\ earliest_acceptance engine Q price_test price_selectors res)
  /\ (exists res tr,
        find_sku engine fr = (inr res, fr, tr)
        /\ earliest_acceptance engine text sku_test sku_selectors res)
  /\ (forall selector e,
        select_all engine selector = inl e ->
        selector_yields_nothing engine Q price_test selector
        /\ selector_yields_nothing engine text sku_test selector).
Proof.
  split; [|split].
  - destruct (find_price_spec engine fr) as (res & tr & H & _ & He).
    exists res, tr. auto.
  - destruct (find_sku_spec engine fr) as (res & tr & H & _ & He).
    exists res, tr. auto.
  - intros selector e H.
    split; eapply query_failure_yields_nothing; eauto.
Qed.

(** C9.  The scrape does not depend on [material_name]: record and engine
    calls are the same for any two values, absent or not, both for the
    scraper itself and for a request sent to the endpoint. *)
Theorem material_name_irrelevant (engine : Engine) (url : text)
        (d : ScrapeRequest) :
  (forall m1 m2 : option text,
     run_scrape engine url m1 = run_scrape engine url m2)
  /\ (forall m : option text,
        scrape_endpoint engine (Some (with_material_name d m))
        = scrape_endpoint engine (Some d)).
Proof.
  split.
  - intros m1 m2. reflexivity.
  - intros m. unfold scrape_endpoint, with_material_name. cbn [req_url].
    destruct (req_url d) as [u|]; [|reflexivity].
    cbn [req_materialName].
    destruct m, (req_materialName d); reflexivity.
Qed.

(** C10.  In a successful record a present [price] lies in [0.01, 10000]
    and a present [sku] has no leading or trailing whitespace, at least
    three characters, and passes [looks_like_sku]. *)
Theorem successful_result_fields (engine : Engine) (url : text)
        (material_name : option text) (r : ScrapeResult) :
  outcome engine url material_name = inr r ->
  success r = true ->
  (forall p, price r = Some p -> (0.01 <= p)%Q /\ (p <= 10000)%Q)
  /\ (forall s, sku r = Some s ->
        trimmed s /\ 3 <= List.length s /\ looks_like_sku s = true).
Proof.
  intros Hout Hsucc.
  destruct (run_scrape_spec engine url material_name)
    as (r' & tr & Hrun & _ & Hr).
  unfold outcome in Hout. rewrite Hrun in Hout. injection Hout as ->.
  destruct (session_error engine url) as [e|];
    [subst r; discriminate|].
  destruct Hr as (p & s & -> & Hp & Hs). simpl. split.
  - intros q ->.
    destruct (earliest_acceptance_tested _ _ _ _ _ Hp) as (t & Ht).
    apply reasonable_bounds, (extract_price_reasonable t), price_test_some, Ht.
  - intros k ->.
    destruct (earliest_acceptance_tested _ _ _ _ _ Hs) as (t & Ht).
    destruct (sku_test_some _ _ Ht) as [-> Hl].
    split; [apply strip_trimmed|].
    split; [apply looks_like_sku_length, Hl|apply looks_like_sku_strip, Hl].
Qed.

Lemma successful_result_fields_witness :
  outcome sample_page sample_url None = inr sample_result
  /\ success sample_result = true
  /\ (forall p, price sample_result = Some p -> (0.01 <= p)%Q /\ (p <= 10000)%Q)
  /\ (forall s, sku sample_result = Some s ->
        trimmed s /\ 3 <= List.length s /\ looks_like_sku s = true).
Proof.
  split; [vm_compute; reflexivity|].
  split; [reflexivity|].
  apply (successful_result_fields sample_page sample_url None sample_result);
    [vm_compute; reflexivity|reflexivity].
Defined.

(** ** The matcher *)

Lemma flat_map_map {A B C} (f : B -> list C) (g : A -> B) (l : list A) :
  flat_map f (map g l) = flat_map (fun x => f (g x)) l.
Proof. induction l as [|x l IH]; simpl; [reflexivity|]. rewrite IH. reflexivity. Qed.

Lemma map_flat_map {A B C} (g : B -> C) (f : A -> list B) (l : list A) :
  map g (flat_map f l) = flat_map (fun x => map g (f x)) l.
Proof.
  induction l as [|x l IH]; simpl; [reflexivity|].
  rewrite map_app, IH. reflexivity.
Qed.

(** A literal word matches exactly when it is a prefix up to case. *)
Lemma matches_lits (bol : bool) (tok : text) :
  forall st,
    matches true bol (lits tok) st
    = if prefix_ci tok (rest st)
      then [MState (consumed st + List.length tok) (cap st)
                   (skipn (List.length tok) (rest st))]
      else [].
Proof.
  induction tok as [|a tok IH]; intros [n g s].
  - simpl. rewrite Nat.add_0_r. reflexivity.
  - assert (Hstep : matches true bol (Seq (Lit a) (lits tok)) (MState n g s)
                    = if prefix_ci (a :: tok) s
                      then [MState (n + S (List.length tok)) g
                                   (skipn (S (List.length tok)) s)]
                      else []).
    { cbn [matches]. unfold step, lit_matches. cbn [rest consumed cap].
      destruct s as [|x s]; [reflexivity|]. cbn [prefix_ci].
      destruct (Ascii.eqb (lower x) (lower a)); [|reflexivity].
      cbn [flat_map andb]. rewrite IH, app_nil_r. cbn [rest consumed cap skipn].
      rewrite Nat.add_succ_r. reflexivity. }
    destruct tok as [|b tok]; [|exact Hstep].
    etransitivity; [|exact Hstep].
    cbn [lits matches]. unfold step. cbn [rest].
    destruct s as [|x s]; [reflexivity|].
    destruct (lit_matches true a x); [|reflexivity].
    cbn [flat_map]. rewrite app_nil_r. reflexivity.
Qed.

(** What [NOISE] reports at a position: the first token of the
    alternation, in its order, that is a prefix there. *)
Lemma match_here_NOISE (bol : bool) (s : text) :
  match_here true bol NOISE s
  = match find (fun tok => prefix_ci tok s) noise_tokens with
    | Some tok => Some (Some (firstn (List.length tok) s), List.length tok)
    | None => None
    end.
Proof.
  unfold match_here, NOISE. cbn [matches]. rewrite !matches_lits.
  cbn [rest consumed cap]. unfold noise_tokens. cbn [map find].
  repeat (match goal with
          | |- context [prefix_ci ?t s] => destruct (prefix_ci t s)
          end; [reflexivity|]).
  reflexivity.
Qed.

(** ** Normalisation *)

Lemma sub_from_step (ic : bool) (r : regex) (c : ascii) (t : text) (bol : bool) :
  sub_from ic r (c :: t) bol 0
  = match match_here ic bol r (c :: t) with
    | Some (_, S k) => sub_from ic r t false k
    | _ => c :: sub_from ic r t false 0
    end.
Proof. reflexivity. Qed.

(** A text without noise token is left as it is. *)
Lemma sub_from_clean (s : text) :
  contains_noise s = false ->
  forall bol, sub_from true NOISE s bol 0 = s.
Proof.
  induction s as [|c t IH]; intros H bol; [reflexivity|].
  cbn [contains_noise] in H. apply orb_false_iff in H. destruct H as [Hc Ht].
  rewrite sub_from_step, match_here_NOISE.
  destruct (find _ noise_tokens) as [tok|] eqn:Hf.
  - apply find_some in Hf. destruct Hf as [Hin Hp].
    assert (Hex : existsb (fun tok => prefix_ci tok (c :: t)) noise_tokens = true)
      by (apply existsb_exists; exists tok; auto).
    congruence.
  - rewrite IH by exact Ht. reflexivity.
Qed.

(** Normalisation only deletes characters. *)
Lemma sub_from_Forall (P : ascii -> Prop) (ic : bool) (r : regex) (s : text) :
  Forall P s -> forall bol skip, Forall P (sub_from ic r s bol skip).
Proof.
  induction 1 as [|c t Hc Ht IH]; intros bol skip; [constructor|].
  destruct skip as [|k]; [|apply IH].
  rewrite sub_from_step.
  destruct (match_here ic bol r (c :: t)) as [[g [|k]]|];
    try (constructor; [exact Hc|apply IH]); apply IH.
Qed.

Lemma prefix_ci_cut (tok : text) (d : ascii) (rest : text) :
  ci_free d tok ->
  forall pre, prefix_ci tok (pre ++ d :: rest) = prefix_ci tok pre.
Proof.
  induction 1 as [|a tok Ha _ IH]; intros pre.
  - destruct pre; reflexivity.
  - destruct pre as [|x pre]; cbn [app prefix_ci].
    + rewrite Ha. reflexivity.
    + rewrite IH. reflexivity.
Qed.

Lemma prefix_ci_length (tok s : text) :
  prefix_ci tok s = true -> List.length tok <= List.length s.
Proof.
  revert s. induction tok as [|a tok IH]; intros [|x s] H; simpl in *;
    try lia; try discriminate.
  apply andb_true_iff in H. destruct H as [_ H]. apply IH in H. lia.
Qed.

Lemma digit_ci_free (d : ascii) :
  is_digit d = true -> Forall (ci_free d) noise_tokens.
Proof.
  intros H.
  destruct d as [[] [] [] [] [] [] [] []];
    try (vm_compute in H; discriminate H);
    repeat constructor.
Qed.

Lemma find_prefix_cut (d : ascii) (rest pre : text) (toks : list text) :
  Forall (ci_free d) toks ->
  find (fun tok => prefix_ci tok (pre ++ d :: rest)) toks
  = find (fun tok => prefix_ci tok pre) toks.
Proof.
  induction 1 as [|tok toks Htok _ IH]; [reflexivity|].
  cbn [find]. rewrite (prefix_ci_cut tok d rest Htok), IH. reflexivity.
Qed.

(** A digit is kept, and the text on either side of it is normalised on
    its own. *)
Lemma sub_from_digit (d : ascii) (rest : text) :
  is_digit d = true ->
  forall pre bol skip,
    skip <= List.length pre ->
    sub_from true NOISE (pre ++ d :: rest) bol skip
    = sub_from true NOISE pre bol skip ++ d :: sub_from true NOISE rest false 0.
Proof.
  intros Hd. pose proof (digit_ci_free d Hd) as Hfree.
  induction pre as [|c pre IH]; intros bol skip Hskip.
  - assert (skip = 0) by (simpl in Hskip; lia). subst skip.
    cbn [app]. rewrite sub_from_step, match_here_NOISE.
    change (d :: rest) with ([] ++ d :: rest).
    rewrite (find_prefix_cut d rest [] noise_tokens Hfree).
    reflexivity.
  - destruct skip as [|k].
    + cbn [app]. rewrite !sub_from_step, !match_here_NOISE.
      change (c :: pre ++ d :: rest) with ((c :: pre) ++ d :: rest).
      rewrite (find_prefix_cut d rest (c :: pre) noise_tokens Hfree).
      destruct (find _ noise_tokens) as [tok|] eqn:Hf.
      * apply find_some in Hf. destruct Hf as [_ Hp].
        apply prefix_ci_length in Hp.
        destruct (List.length tok) as [|k] eqn:Hk.
        -- cbn [app]. rewrite IH by lia. reflexivity.
        -- apply IH. simpl in Hp. lia.
      * cbn [app]. rewrite IH by lia. reflexivity.
    + cbn [app sub_from]. apply IH. simpl in Hskip. lia.
Qed.


Lemma step_shift (p : ascii -> bool) n g st :
  step p (shift n g st) = map (shift n g) (step p st).
Proof.
  unfold step, shift. cbn [rest consumed cap].
  destruct (rest st) as [|x t]; [reflexivity|].
  destruct (p x); [|reflexivity].
  cbn [map rest consumed cap]. rewrite Nat.add_succ_r. reflexivity.
Qed.

Lemma rep_shift (f : mstate -> list mstate) n g :
  (forall st, f (shift n g st) = map (shift n g) (f st)) ->
  forall hi lo st,
    rep f lo hi (shift n g st) = map (shift n g) (rep f lo hi st).
Proof.
  intros Hf. induction hi as [|h IH]; intros lo st; cbn [rep].
  - destruct (lo =? 0); reflexivity.
  - rewrite Hf, flat_map_map, map_app, map_flat_map.
    f_equal.
    + apply flat_map_ext. intros a. apply IH.
    + destruct (lo =? 0); reflexivity.
Qed.

Lemma matches_shift (ic bol : bool) (r : regex) n g :
  anchor_free r = true ->
  forall st,
    matches ic bol r (shift n g st) = map (shift n g) (matches ic bol r st).
Proof.
  induction r as [| c | | | rs | | | r1 IH1 r2 IH2 | r1 IH1 r2 IH2
                  | lo hi r1 IH1 | r1 IH1];
    cbn [anchor_free]; intros Hr st; cbn [matches];
    try apply step_shift; try discriminate.
  - reflexivity.
  - change (rest (shift n g st)) with (rest st).
    destruct (rest st) as [|x [|y t]]; try reflexivity.
    destruct (Ascii.eqb x "010"); reflexivity.
  - apply andb_true_iff in Hr. destruct Hr as [H1 H2].
    rewrite (IH1 H1), flat_map_map, map_flat_map.
    apply flat_map_ext. intros a. apply (IH2 H2).
  - apply andb_true_iff in Hr. destruct Hr as [H1 H2].
    rewrite (IH1 H1), (IH2 H2), map_app. reflexivity.
  - change (rest (shift n g st)) with (rest st).
    apply rep_shift. exact (IH1 Hr).
  - rewrite (IH1 Hr), !map_map. apply map_ext. intros a.
    unfold shift. cbn [rest consumed cap].
    replace (n + consumed a - (n + consumed st)) with (consumed a - consumed st)
      by lia.
    reflexivity.
Qed.

(** Whether such a pattern matches depends on the text alone. *)
Lemma matches_nil_anywhere (ic bol : bool) (r : regex) (s : text) n g :
  anchor_free r = true ->
  matches ic bol r (MState 0 None s) = [] ->
  matches ic bol r (MState n g s) = [].
Proof.
  intros Hr H.
  replace (MState n g s) with (shift n g (MState 0 None s))
    by (unfold shift; cbn [consumed cap rest]; rewrite Nat.add_0_r; reflexivity).
  rewrite (matches_shift ic bol r n g Hr), H. reflexivity.
Qed.

(** ** The price patterns *)

Lemma no_digit_head_of (s : text) : no_digit s -> no_digit_head s.
Proof. destruct 1; simpl; auto. Qed.

Lemma amount_needs_digit (bol : bool) (s : text) n g :
  no_digit_head s -> matches false bol AMOUNT (MState n g s) = [].
Proof.
  destruct s as [|c s]; simpl; intros H; [reflexivity|].
  unfold step. cbn [rest]. rewrite H. reflexivity.
Qed.

Lemma group_amount_needs_digit (bol : bool) (s : text) n g :
  no_digit_head s -> matches false bol (Group AMOUNT) (MState n g s) = [].
Proof.
  intros H. cbn [matches]. rewrite amount_needs_digit by exact H. reflexivity.
Qed.

Lemma bare_needs_digit (bol : bool) (s : text) :
  no_digit_head s -> match_here false bol P_BARE s = None.
Proof.
  intros H. unfold match_here, P_BARE.
  rewrite group_amount_needs_digit by exact H. reflexivity.
Qed.

Lemma usd_needs_digit (bol : bool) (s : text) :
  no_digit_head s -> match_here false bol P_USD s = None.
Proof.
  intros H. unfold match_here, P_USD. cbn [matches].
  fold AMOUNT.
  change (map _ (matches false bol AMOUNT (MState 0 None s)))
    with (matches false bol (Group AMOUNT) (MState 0 None s)).
  rewrite group_amount_needs_digit by exact H. reflexivity.
Qed.

Lemma matches_Seq (ic bol : bool) (r1 r2 : regex) (st : mstate) :
  matches ic bol (Seq r1 r2) st
  = flat_map (matches ic bol r2) (matches ic bol r1 st).
Proof. reflexivity. Qed.

Lemma dollar_needs_digit (bol : bool) (c : ascii) (s : text) :
  no_digit_head s -> match_here false bol P_DOLLAR (c :: s) = None.
Proof.
  intros H. unfold match_here, P_DOLLAR. rewrite matches_Seq.
  cbn [matches]. unfold step. cbn [rest consumed cap].
  destruct (lit_matches false "$" c); [|reflexivity].
  cbn [flat_map]. fold AMOUNT.
  rewrite amount_needs_digit by exact H. reflexivity.
Qed.

Lemma dollar_needs_dollar (bol : bool) (c : ascii) (s : text) :
  c <> "$"%char -> match_here false bol P_DOLLAR (c :: s) = None.
Proof.
  intros H. unfold match_here, P_DOLLAR. rewrite matches_Seq.
  cbn [matches]. unfold step, lit_matches. cbn [rest consumed cap].
  destruct (Ascii.eqb_spec c "$"); [contradiction|reflexivity].
Qed.

Lemma dollar_nil (bol : bool) : match_here false bol P_DOLLAR [] = None.
Proof. reflexivity. Qed.

Lemma bare_block (bol : bool) (post : text) :
  match_here false bol P_BARE (BLOCK ++ post) = Some (Some BLOCK, 5).
Proof. reflexivity. Qed.

Lemma dollar_block (bol : bool) (post : text) :
  match_here false bol P_DOLLAR ("$"%char :: BLOCK ++ post)
  = Some (Some BLOCK, 6).
Proof. reflexivity. Qed.

Lemma usd_suffix_after_digit (bol : bool) (d : ascii) (s : text) n g :
  is_digit d = true ->
  matches false bol USD_SUFFIX (MState n g (d :: s)) = [].
Proof.
  intros H.
  destruct d as [[] [] [] [] [] [] [] []];
    try (vm_compute in H; discriminate H); reflexivity.
Qed.

Lemma step_cap (p : ascii -> bool) st st' :
  In st' (step p st) -> cap st' = cap st.
Proof.
  unfold step. destruct (rest st) as [|x t]; [contradiction|].
  destruct (p x); [|contradiction].
  intros [<- | []]. reflexivity.
Qed.

Lemma rep_cap (f : mstate -> list mstate) :
  (forall st st', In st' (f st) -> cap st' = cap st) ->
  forall hi lo st st', In st' (rep f lo hi st) -> cap st' = cap st.
Proof.
  intros Hf. induction hi as [|h IH]; intros lo st st'; cbn [rep].
  - destruct (lo =? 0); [intros [<- | []]; reflexivity|contradiction].
  - rewrite in_app_iff, in_flat_map. intros [(x & Hx & Hin) | Hin].
    + rewrite (IH _ _ _ Hin). exact (Hf _ _ Hx).
    + destruct (lo =? 0); [destruct Hin as [<- | []]; reflexivity|contradiction].
Qed.

(** A pattern without group leaves the captured text as it was. *)
Lemma matches_cap (ic bol : bool) (r : regex) :
  group_free r = true ->
  forall st st', In st' (matches ic bol r st) -> cap st' = cap st.
Proof.
  induction r as [| c | | | rs | | | r1 IH1 r2 IH2 | r1 IH1 r2 IH2
                  | lo hi r1 IH1 | r1 IH1];
    cbn [group_free]; intros Hr st st'; cbn [matches];
    try apply step_cap; try discriminate.
  - intros [<- | []]. reflexivity.
  - destruct (bol && (consumed st =? 0));
      [intros [<- | []]; reflexivity|contradiction].
  - destruct (rest st) as [|x [|y t]]; try contradiction.
    + intros [<- | []]. reflexivity.
    + destruct (Ascii.eqb x "010");
        [intros [<- | []]; reflexivity|contradiction].
  - apply andb_true_iff in Hr. destruct Hr as [H1 H2].
    rewrite in_flat_map. intros (x & Hx & Hin).
    rewrite (IH2 H2 _ _ Hin). exact (IH1 H1 _ _ Hx).
  - apply andb_true_iff in Hr. destruct Hr as [H1 H2].
    rewrite in_app_iff. intros [Hin | Hin]; [exact (IH1 H1 _ _ Hin)|exact (IH2 H2 _ _ Hin)].
  - apply rep_cap. exact (IH1 Hr).
Qed.


(** Symbolic evaluation of [Group AMOUNT] on a text whose first characters
    are known or are described by hypotheses on [is_digit] and [Ascii.eqb]. *)
Ltac closed_tests_in Hl :=
  repeat match type of Hl with
  | context [is_digit (Ascii ?a ?b ?c ?d ?e ?f ?g ?h)] =>
      let v := eval vm_compute in (is_digit (Ascii a b c d e f g h)) in
      change (is_digit (Ascii a b c d e f g h)) with v in Hl
  | context [Ascii.eqb (Ascii ?a ?b ?c ?d ?e ?f ?g ?h) ?y] =>
      let v := eval vm_compute in (Ascii.eqb (Ascii a b c d e f g h) y) in
      change (Ascii.eqb (Ascii a b c d e f g h) y) with v in Hl
  end.

Ltac known_tests_in Hl :=
  repeat match goal with
  | H : is_digit _ = false |- _ => rewrite H in Hl
  | H : Ascii.eqb _ _ = false |- _ => rewrite H in Hl
  end.

Ltac amount_states :=
  unfold match_here, P_USD; rewrite matches_Seq;
  match goal with
  | |- context [matches false ?b (Group AMOUNT) ?st] =>
      let l := fresh "l" in
      let Hl := fresh "Hl" in
      remember (matches false b (Group AMOUNT) st) as l eqn:Hl;
      repeat (progress (cbn in Hl; unfold lit_matches in Hl;
                        closed_tests_in Hl; known_tests_in Hl));
      subst l
  end;
  cbn [flat_map].

Ltac usd_after_amount H :=
  amount_states;
  repeat match goal with
         | |- context [matches false ?b USD_SUFFIX (MState ?n ?g (?d :: ?s))] =>
             rewrite (usd_suffix_after_digit b d s n g eq_refl)
         end;
  repeat match goal with
         | |- context [matches false ?b USD_SUFFIX (MState ?n ?g ?s)] =>
             rewrite (matches_nil_anywhere false b USD_SUFFIX s n g eq_refl H)
         end;
  cbn [app];
  try (left; reflexivity);
  match goal with
  | |- context [matches false ?b USD_SUFFIX ?st] =>
      let Hw := fresh "Hw" in
      destruct (matches false b USD_SUFFIX st) as [|w ws] eqn:Hw;
      [left; reflexivity
      |right; eexists; cbn [app];
       rewrite (matches_cap false b USD_SUFFIX eq_refl st w)
         by (rewrite Hw; left; reflexivity);
       reflexivity]
  end.

(** With the suffix missing after the digits, [P_USD] does not match at
    the start of the five digits. *)
Lemma usd_block_none (bol : bool) (post : text) :
  matches false bol USD_SUFFIX (MState 0 None post) = [] ->
  match_here false bol P_USD (BLOCK ++ post) = None.
Proof.
  intros H.
  assert (Hor : match_here false bol P_USD (BLOCK ++ post) = None \/ False);
    [|destruct Hor as [Hor | []]; exact Hor].
  usd_after_amount H.
Qed.

Lemma no_digit_beginning (post : text) : no_digit post -> beginning post.
Proof.
  intros Hpost. destruct post as [|c post2]; [apply BeginEmpty|].
  inversion Hpost as [|c' p' Hc Hpost2]; subst c' p'.
  destruct (Ascii.eqb_spec c ".") as [-> | Hn1].
  - destruct post2 as [|c2 post3]; [apply BeginPointEnd|].
    inversion Hpost2; subst. apply BeginPoint; assumption.
  - destruct (Ascii.eqb_spec c ",") as [-> | Hn2].
    + destruct post2 as [|c2 post3]; [apply BeginCommaEnd|].
      inversion Hpost2; subst. apply BeginComma; assumption.
    + apply BeginOther; [assumption| |]; apply Ascii.eqb_neq; assumption.
Qed.

(** Further inside the digits, with the suffix missing after them,
    [P_USD] does not match from the [5]... *)
Lemma usd_in_block_5000 (bol : bool) (post : text) :
  no_digit post ->
  matches false bol USD_SUFFIX (MState 0 None post) = [] ->
  match_here false bol P_USD (str "5000" ++ post) = None.
Proof.
  intros Hpost H.
  assert (Hor : match_here false bol P_USD (str "5000" ++ post) = None \/ False);
    [|destruct Hor as [Hor | []]; exact Hor].
  destruct (no_digit_beginning post Hpost); usd_after_amount H.
Qed.

(** ... and from one of the zeros it can only match across a point that
    follows them. *)
Lemma usd_in_zeros (bol : bool) (digits post : text) :
  In digits [str "000"; str "00"; str "0"] ->
  no_digit post ->
  matches false bol USD_SUFFIX (MState 0 None post) = [] ->
  match_here false bol P_USD (digits ++ post) = None
  \/ exists n, match_here false bol P_USD (digits ++ post)
               = Some (Some (digits ++ str "."), n).
Proof.
  intros Hin Hpost H. simpl in Hin.
  decompose [or] Hin; try contradiction; subst digits;
    destruct (no_digit_beginning post Hpost); usd_after_amount H.
Qed.

Lemma matches_nil_back (ic bol : bool) (r : regex) (s : text) n g :
  anchor_free r = true ->
  matches ic bol r (MState n g s) = [] ->
  matches ic bol r (MState 0 None s) = [].
Proof.
  intros Hr H.
  replace (MState n g s) with (shift n g (MState 0 None s)) in H
    by (unfold shift; cbn [consumed cap rest]; rewrite Nat.add_0_r; reflexivity).
  rewrite (matches_shift ic bol r n g Hr) in H.
  destruct (matches ic bol r (MState 0 None s)); [reflexivity|discriminate H].
Qed.

Lemma rep_ext (f f' : mstate -> list mstate) :
  (forall st, f st = f' st) ->
  forall hi lo st, rep f lo hi st = rep f' lo hi st.
Proof.
  intros Hf. induction hi as [|h IH]; intros lo st; cbn [rep]; [reflexivity|].
  rewrite Hf. f_equal. apply flat_map_ext. intros a. apply IH.
Qed.

(** Without [^] the start of the string plays no role. *)
Lemma matches_bol (ic b b' : bool) (r : regex) :
  anchor_free r = true ->
  forall st, matches ic b r st = matches ic b' r st.
Proof.
  induction r as [| c | | | rs | | | r1 IH1 r2 IH2 | r1 IH1 r2 IH2
                  | lo hi r1 IH1 | r1 IH1];
    cbn [anchor_free]; intros Hr st; cbn [matches];
    try reflexivity; try discriminate.
  - apply andb_true_iff in Hr. destruct Hr as [H1 H2].
    rewrite (IH1 H1). apply flat_map_ext. intros a. apply (IH2 H2).
  - apply andb_true_iff in Hr. destruct Hr as [H1 H2].
    rewrite (IH1 H1), (IH2 H2). reflexivity.
  - apply rep_ext. exact (IH1 Hr).
  - rewrite (IH1 Hr). reflexivity.
Qed.

(** With the suffix present, [P_USD] captures the five digits. *)
Lemma usd_block_some (bol : bool) (post : text) :
  matches false bol USD_SUFFIX (MState 0 None post) <> [] ->
  exists n, match_here false bol P_USD (BLOCK ++ post) = Some (Some BLOCK, n).
Proof.
  intros H. amount_states.
  repeat match goal with
         | |- context [matches false ?b USD_SUFFIX (MState ?n ?g (?d :: ?s))] =>
             rewrite (usd_suffix_after_digit b d s n g eq_refl)
         end.
  cbn [app]. rewrite app_nil_r.
  match goal with
  | |- context [matches false bol USD_SUFFIX ?st] =>
      destruct (matches false bol USD_SUFFIX st) as [|w ws] eqn:Hw;
      [|exists (consumed w);
        rewrite (matches_cap false bol USD_SUFFIX eq_refl st w)
          by (rewrite Hw; left; reflexivity);
        reflexivity]
  end.
  exfalso. apply H.
  exact (matches_nil_back false bol USD_SUFFIX post _ _ eq_refl Hw).
Qed.

(** ** [re.findall] on a text whose digits are those of [15000] *)

Lemma findall_from_step (ic : bool) (r : regex) (c : ascii) (t : text)
      (bol : bool) :
  findall_from ic r (c :: t) bol 0
  = match match_here ic bol r (c :: t) with
    | Some (g, n) => group_text g :: findall_from ic r t false (pred n)
    | None => findall_from ic r t false 0
    end.
Proof. reflexivity. Qed.

Lemma findall_nothing (ic : bool) (r : regex) (P : text -> Prop) :
  (forall bol s, P s -> match_here ic bol r s = None) ->
  (forall c s, P (c :: s) -> P s) ->
  forall s, P s -> forall bol skip, findall_from ic r s bol skip = [].
Proof.
  intros Hnone Htail. induction s as [|c t IH]; intros Hs bol skip.
  - cbn [findall_from]. rewrite (Hnone bol [] Hs). destruct skip; reflexivity.
  - destruct skip as [|k].
    + rewrite findall_from_step, (Hnone bol _ Hs). apply IH. exact (Htail _ _ Hs).
    + cbn [findall_from]. apply IH. exact (Htail _ _ Hs).
Qed.

Lemma no_digit_tail c s : no_digit (c :: s) -> no_digit s.
Proof. inversion 1; assumption. Qed.

Lemma price_pattern_needs_digit (pattern : regex) :
  In pattern price_patterns ->
  forall bol s, no_digit s -> match_here false bol pattern s = None.
Proof.
  unfold price_patterns. intros Hin bol s Hs.
  destruct Hin as [<- | [<- | [<- | []]]].
  - destruct s as [|c t]; [apply dollar_nil|].
    apply dollar_needs_digit, no_digit_head_of, (no_digit_tail c), Hs.
  - apply usd_needs_digit, no_digit_head_of, Hs.
  - apply bare_needs_digit, no_digit_head_of, Hs.
Qed.

Lemma findall_no_digit (pattern : regex) (s : text) :
  In pattern price_patterns -> no_digit s ->
  forall bol skip, findall_from false pattern s bol skip = [].
Proof.
  intros Hin. apply (findall_nothing false pattern no_digit).
  - apply price_pattern_needs_digit, Hin.
  - exact no_digit_tail.
Qed.

Lemma block_unacceptable : unacceptable BLOCK.
Proof. right. eexists. split; reflexivity. Qed.

Lemma zeros_unacceptable (digits : text) :
  In digits [str "000"; str "00"; str "0"] ->
  unacceptable (digits ++ str ".").
Proof.
  intros [<- | [<- | [<- | []]]]; right; eexists; split; reflexivity.
Qed.

(** [P_BARE]: the first match is the token itself. *)
Lemma bare_first_match (post : text) :
  forall pre, no_digit pre ->
  forall bol,
    exists later,
      findall_from false P_BARE (pre ++ BLOCK ++ post) bol 0 = BLOCK :: later.
Proof.
  induction pre as [|c pre IH]; intros Hpre bol.
  - cbn [app]. change (BLOCK ++ post) with ("1"%char :: str "5000" ++ post).
    rewrite findall_from_step.
    change ("1"%char :: str "5000" ++ post) with (BLOCK ++ post).
    rewrite bare_block. eexists. reflexivity.
  - cbn [app]. rewrite findall_from_step.
    rewrite bare_needs_digit by (inversion Hpre; assumption).
    apply IH. exact (no_digit_tail _ _ Hpre).
Qed.

(** [P_DOLLAR]: a dollar sign before the token captures it; no other
    dollar sign is followed by a digit. *)
Lemma dollar_first_match (post : text) :
  no_digit post ->
  forall pre, no_digit pre ->
  forall bol,
    rejected_first (findall_from false P_DOLLAR (pre ++ BLOCK ++ post) bol 0).
Proof.
  intros Hpost.
  assert (Hblock : forall bol,
             findall_from false P_DOLLAR (BLOCK ++ post) bol 0 = []).
  { intros bol.
    change (BLOCK ++ post)
      with ("1"%char :: "5"%char :: "0"%char :: "0"%char :: "0"%char :: post).
    repeat (rewrite findall_from_step, dollar_needs_dollar by discriminate).
    apply findall_no_digit; [left; reflexivity|exact Hpost]. }
  induction pre as [|c pre IH]; intros Hpre bol.
  - cbn [app]. rewrite Hblock. exact I.
  - cbn [app]. rewrite findall_from_step.
    destruct pre as [|c' pre'].
    + cbn [app]. destruct (Ascii.eqb_spec c "$") as [-> | Hne].
      * rewrite dollar_block. exact block_unacceptable.
      * rewrite dollar_needs_dollar by exact Hne. rewrite Hblock. exact I.
    + rewrite dollar_needs_digit.
      * apply IH. exact (no_digit_tail _ _ Hpre).
      * apply no_digit_tail in Hpre. inversion Hpre; assumption.
Qed.

(** [P_USD]: its first match, if any, is the token or zeros of the token
    with a point. *)
Lemma usd_first_match (post : text) :
  no_digit post ->
  forall pre, no_digit pre ->
  forall bol,
    rejected_first (findall_from false P_USD (pre ++ BLOCK ++ post) bol 0).
Proof.
  intros Hpost.
  assert (Hpost0 : forall bol skip, findall_from false P_USD post bol skip = [])
    by (apply findall_no_digit; [right; left; reflexivity|exact Hpost]).
  assert (Hblock : forall bol,
             rejected_first (findall_from false P_USD (BLOCK ++ post) bol 0)).
  { intros bol.
    destruct (matches false bol USD_SUFFIX (MState 0 None post)) as [|w ws] eqn:HW.
    - assert (HW' : matches false false USD_SUFFIX (MState 0 None post) = [])
        by (rewrite (matches_bol false false bol USD_SUFFIX eq_refl); exact HW).
      pose proof (usd_block_none bol post HW) as H0.
      pose proof (usd_in_block_5000 false post Hpost HW') as H1.
      assert (Hz : forall digits,
                 In digits [str "000"; str "00"; str "0"] ->
                 forall (found : nat -> list text) (later : list text),
                   rejected_first later ->
                   rejected_first
                     (match match_here false false P_USD (digits ++ post) with
                      | Some (g, n) => group_text g :: found n
                      | None => later
                      end)).
      { intros digits Hd found later Hlater.
        destruct (usd_in_zeros false digits post Hd Hpost HW') as [-> | (n & ->)];
          [exact Hlater|].
        apply zeros_unacceptable, Hd. }
      change (BLOCK ++ post) with ("1"%char :: str "5000" ++ post) in *.
      rewrite findall_from_step, H0.
      change (str "5000" ++ post) with ("5"%char :: str "000" ++ post) in *.
      rewrite findall_from_step, H1.
      change (str "000" ++ post) with ("0"%char :: str "00" ++ post).
      rewrite findall_from_step.
      apply (Hz (str "000") ltac:(simpl; auto)
                (fun n => findall_from false P_USD (str "00" ++ post) false (pred n))).
      change (str "00" ++ post) with ("0"%char :: str "0" ++ post).
      rewrite findall_from_step.
      apply (Hz (str "00") ltac:(simpl; auto)
                (fun n => findall_from false P_USD (str "0" ++ post) false (pred n))).
      change (str "0" ++ post) with ("0"%char :: post).
      rewrite findall_from_step.
      apply (Hz (str "0") ltac:(simpl; auto)
                (fun n => findall_from false P_USD post false (pred n))).
      rewrite Hpost0. exact I.
    - destruct (usd_block_some bol post) as (n & Hn);
        [rewrite HW; discriminate|].
      change (BLOCK ++ post) with ("1"%char :: str "5000" ++ post) in *.
      rewrite findall_from_step, Hn. exact block_unacceptable. }
  induction pre as [|c pre IH]; intros Hpre bol.
  - apply Hblock.
  - cbn [app]. rewrite findall_from_step.
    rewrite usd_needs_digit by (inversion Hpre; assumption).
    apply IH. exact (no_digit_tail _ _ Hpre).
Qed.

Lemma try_patterns_rejected (patterns : list regex) (t : text) :
  Forall (fun q => first_match_rejected q t) patterns ->
  try_patterns patterns t = None.
Proof.
  induction 1 as [|pattern more Hrej _ IH]; [reflexivity|].
  cbn [try_patterns]. unfold first_match_rejected, rejected_first in Hrej.
  destruct (re_findall false pattern t) as [|m0 later]; [exact IH|].
  destruct Hrej as [-> | (p & -> & ->)]; exact IH.
Qed.

Lemma normalize_block (pre post : text) :
  normalize (pre ++ BLOCK ++ post)
  = sub_from true NOISE pre true 0 ++ BLOCK ++ sub_from true NOISE post false 0.
Proof.
  unfold normalize, re_sub_empty.
  change (pre ++ BLOCK ++ post)
    with (pre ++ "1"%char :: [] ++ "5"%char :: [] ++ "0"%char
              :: [] ++ "0"%char :: [] ++ "0"%char :: post).
  rewrite !sub_from_digit by (reflexivity || apply Nat.le_0_l).
  reflexivity.
Qed.

(** ** The claims about normalisation and price extraction *)

(** C8.  When the only numeric token of the text is 15000, no price is
    extracted, although the bare-number pattern does match the token: the
    first match of every pattern that matches is out of range. *)
Theorem only_15000_absent (t : text) :
  only_numeric_token (str "15000") t ->
  extract_price_from_text t = None
  /\ exists later,
       re_findall false (Group AMOUNT) (normalize t) = str "15000" :: later.
Proof.
  intros (pre & post & -> & Hpre & Hpost).
  pose proof (sub_from_Forall _ true NOISE pre Hpre true 0) as Hpre'.
  pose proof (sub_from_Forall _ true NOISE post Hpost false 0) as Hpost'.
  fold (no_digit (sub_from true NOISE pre true 0)) in Hpre'.
  fold (no_digit (sub_from true NOISE post false 0)) in Hpost'.
  split.
  - assert (Hne : exists c s, pre ++ str "15000" ++ post = c :: s)
      by (destruct pre; simpl; eauto).
    destruct Hne as (c & s & Hne).
    unfold extract_price_from_text. rewrite Hne, <- Hne.
    change (str "15000") with BLOCK. rewrite normalize_block.
    apply try_patterns_rejected. unfold price_patterns.
    unfold first_match_rejected, re_findall.
    repeat constructor.
    + apply dollar_first_match; assumption.
    + apply usd_first_match; assumption.
    + destruct (bare_first_match (sub_from true NOISE post false 0)
                                 _ Hpre' true) as (later & ->).
      exact block_unacceptable.
  - change (str "15000") with BLOCK. rewrite normalize_block.
    apply (bare_first_match _ _ Hpre' true).
Qed.

Lemma only_15000_absent_witness :
  only_numeric_token (str "15000") (str "Total: 15000 USD")
  /\ extract_price_from_text (str "Total: 15000 USD") = None
  /\ exists later,
       re_findall false (Group AMOUNT) (normalize (str "Total: 15000 USD"))
       = str "15000" :: later.
Proof.
  assert (H : only_numeric_token (str "15000") (str "Total: 15000 USD")).
  { exists (str "Total: "), (str " USD").
    split; [reflexivity|]. split; repeat constructor. }
  split; [exact H|]. exact (only_15000_absent (str "Total: 15000 USD") H).
Defined.

(** C6, on the six tokens taken alone: five of them are removed whole,
    but of [originally] only [orig] is removed, because the alternation
    tries [orig] before [originally]. *)
Theorem normalize_tokens_alone :
  normalize (str "was") = []
  /\ normalize (str "orig") = []
  /\ normalize (str "originally") = str "inally"
  /\ normalize (str "save") = []
  /\ normalize (str "you save") = []
  /\ normalize (str "msrp") = [].
Proof. repeat split; vm_compute; reflexivity. Qed.


(** When a noise token is left, another pass removes characters. *)
Lemma sub_from_length (ic : bool) (r : regex) (s : text) :
  forall bol skip, List.length (sub_from ic r s bol skip) <= List.length s.
Proof.
  induction s as [|c t IH]; intros bol skip; [apply Nat.le_refl|].
  destruct skip as [|k]; cbn [sub_from List.length].
  - destruct (match_here ic bol r (c :: t)) as [[g [|k]]|];
      cbn [List.length]; try apply le_n_S; try apply Nat.le_le_succ_r;
      apply IH.
  - apply Nat.le_le_succ_r, IH.
Qed.

Lemma sub_from_noisy (s : text) :
  contains_noise s = true ->
  forall bol, List.length (sub_from true NOISE s bol 0) < List.length s.
Proof.
  induction s as [|c t IH]; intros H bol; [discriminate H|].
  rewrite sub_from_step, match_here_NOISE.
  cbn [contains_noise] in H.
  destruct (find _ noise_tokens) as [tok|] eqn:Hf.
  - apply find_some in Hf. destruct Hf as [Hin _].
    assert (Hlen : exists k, List.length tok = S k).
    { unfold noise_tokens in Hin. simpl in Hin.
      decompose [or] Hin; try contradiction; subst tok; eexists; reflexivity. }
    destruct Hlen as (k & ->). cbn [List.length].
    apply Nat.lt_succ_r, sub_from_length.
  - assert (Hex : existsb (fun tok => prefix_ci tok (c :: t)) noise_tokens
                  = false).
    { destruct (existsb _ noise_tokens) eqn:E; [|reflexivity].
      apply existsb_exists in E. destruct E as (tok & Hin & Hp).
      pose proof (find_none _ _ Hf tok Hin) as Hn. simpl in Hn. congruence. }
    rewrite Hex in H. cbn [orb] in H.
    cbn [List.length]. apply -> Nat.succ_lt_mono. apply IH. exact H.
Qed.

Lemma normalize_changes_noisy (s : text) :
  contains_noise s = true -> normalize s <> s.
Proof.
  intros H Heq. pose proof (sub_from_noisy s H true) as Hlt.
  unfold normalize, re_sub_empty in Heq. rewrite Heq in Hlt.
  exact (Nat.lt_irrefl _ Hlt).
Qed.




Lemma noise_token_length (tok : text) :
  In tok noise_tokens -> exists k, List.length tok = S k.
Proof.
  intros Hin. unfold noise_tokens in Hin. simpl in Hin.
  decompose [or] Hin; try contradiction; subst tok; eexists; reflexivity.
Qed.




Lemma whole_words_at (prev : option ascii) (s : text) (tok : text) :
  whole_words_from prev s = true ->
  In tok noise_tokens -> prefix_ci tok s = true ->
  not_letter prev = true
  /\ not_letter (hd_error (skipn (List.length tok) s)) = true.
Proof.
  intros Hw Hin Hp. destruct s as [|c t].
  - destruct (noise_token_length tok Hin) as (k & Hk).
    destruct tok; [discriminate Hk|discriminate Hp].
  - cbn [whole_words_from] in Hw. apply andb_true_iff in Hw.
    destruct Hw as [Hw _]. rewrite forallb_forall in Hw.
    specialize (Hw tok Hin). rewrite Hp in Hw. cbn [negb orb] in Hw.
    apply andb_true_iff in Hw. exact Hw.
Qed.

Lemma whole_words_tail (prev : option ascii) (c : ascii) (t : text) :
  whole_words_from prev (c :: t) = true -> whole_words_from (Some c) t = true.
Proof.
  cbn [whole_words_from]. intros H. apply andb_true_iff in H. apply H.
Qed.

(** Whole words, spelled out: wherever a noise token occurs in the text,
    the character before the occurrence and the character after it are no
    letters. *)
Lemma whole_words_from_iff (s : text) :
  forall prev,
    whole_words_from prev s = true
    <-> forall pre post tok,
          In tok noise_tokens -> s = pre ++ post -> prefix_ci tok post = true ->
          not_letter (char_before prev pre) = true
          /\ not_letter (hd_error (skipn (List.length tok) post)) = true.
Proof.
  induction s as [|c t IH]; intros prev; split.
  - intros _ pre post tok Hin Hs Hp.
    symmetry in Hs. apply app_eq_nil in Hs. destruct Hs as [-> ->].
    exact (whole_words_at prev [] tok eq_refl Hin Hp).
  - reflexivity.
  - intros Hw [|x pre] post tok Hin Hs Hp.
    + cbn [app] in Hs. subst post. exact (whole_words_at prev _ tok Hw Hin Hp).
    + cbn [app] in Hs. injection Hs as <- Hs.
      apply whole_words_tail in Hw.
      exact (proj1 (IH (Some c)) Hw pre post tok Hin Hs Hp).
  - intros H. cbn [whole_words_from]. apply andb_true_iff. split.
    + apply forallb_forall. intros tok Hin.
      destruct (prefix_ci tok (c :: t)) eqn:Hp; [|reflexivity].
      destruct (H [] (c :: t) tok Hin eq_refl Hp) as [H1 H2].
      cbn [char_before fold_left] in H1. rewrite H1, H2. reflexivity.
    + apply (IH (Some c)). intros pre post tok Hin Hs Hp.
      apply (H (c :: pre) post tok Hin); [rewrite Hs; reflexivity|exact Hp].
Qed.





(** C2 as stated fails: in [5 $20000] the dollar pattern is the first one
    that matches, its first match 20000 is out of range, and the price 5 is
    returned all the same, found by the bare-number pattern. *)
Lemma first_match_not_final : ~ first_match_is_final.
Proof.
  intros H.
  assert (Hnone : extract_price_from_text (str "5 $20000") = None).
  { apply (H (str "5 $20000") [] P_DOLLAR [P_USD; P_BARE]
             (str "20000") [] (20000 # 1)%Q).
    - discriminate.
    - reflexivity.
    - constructor.
    - vm_compute; reflexivity.
    - vm_compute; reflexivity.
    - vm_compute; reflexivity. }
  vm_compute in Hnone. discriminate Hnone.
Qed.

(** A later match of the same pattern is not consulted: in [$20000 $5]
    the dollar pattern also matches 5, and nothing is extracted. *)
Example later_match_not_consulted :
  re_findall false P_DOLLAR (normalize (str "$20000 $5"))
  = [str "20000"; str "5"]
  /\ extract_price_from_text (str "$20000 $5") = None.
Proof. split; vm_compute; reflexivity. Qed.

Lemma try_patterns_spec (patterns : list regex) (t : text) :
  match try_patterns patterns t with
  | Some p =>
      exists before pattern after,
        patterns = before ++ pattern :: after
        /\ Forall (fun q => first_match_rejected q t) before
        /\ first_match_accepted pattern t p
  | None => Forall (fun q => first_match_rejected q t) patterns
  end.
Proof.
  induction patterns as [|pattern more IH]; cbn [try_patterns]; [constructor|].
  assert (Hnext : first_match_rejected pattern t ->
            match try_patterns more t with
            | Some p =>
                exists before pattern0 after,
                  pattern :: more = before ++ pattern0 :: after
                  /\ Forall (fun q => first_match_rejected q t) before
                  /\ first_match_accepted pattern0 t p
            | None =>
                Forall (fun q => first_match_rejected q t) (pattern :: more)
            end).
  { intros Hrej. destruct (try_patterns more t) as [p|].
    - destruct IH as (b & q & a & -> & Hb & Hq).
      exists (pattern :: b), q, a. repeat split; auto.
    - constructor; assumption. }
  unfold first_match_rejected, first_match_accepted, rejected_first,
    unacceptable, acceptable in *.
  destruct (re_findall false pattern t) as [|m0 later] eqn:Hfind;
    [exact (Hnext I)|].
  destruct (float_of_text (remove_commas m0)) as [price|] eqn:Hf;
    [|apply Hnext; left; reflexivity].
  destruct (reasonable price) eqn:Hr.
  - exists [], pattern, more.
    split; [reflexivity|]. split; [constructor|].
    exists m0, later. repeat split; auto.
  - apply Hnext. right. exists price. auto.
Qed.

(** C2, as the code has it.  The patterns are tried in order and of each
    only the first match is considered; a pattern whose first match is out
    of range (or that has no match) is passed over and the next pattern is
    tried.  The price returned is the first match of the earliest pattern
    whose first match is in range; nothing is returned exactly when no
    pattern has such a first match. *)
Theorem extract_price_earliest_acceptable (t : text) :
  match extract_price_from_text t with
  | Some p =>
      exists before pattern after,
        price_patterns = before ++ pattern :: after
        /\ Forall (fun q => first_match_rejected q (normalize t)) before
        /\ first_match_accepted pattern (normalize t) p
  | None =>
      Forall (fun q => first_match_rejected q (normalize t)) price_patterns
  end.
Proof.
  destruct t as [|c t].
  - cbn [extract_price_from_text]. repeat constructor.
  - unfold extract_price_from_text. apply try_patterns_spec.
Qed.

(** * Further properties *)

(** ** Soundness of the matcher *)

Lemma advances_nil st : advances st st [].
Proof. split; [reflexivity|]. simpl. lia. Qed.

Lemma advances_trans st1 st2 st3 u v :
  advances st1 st2 u -> advances st2 st3 v -> advances st1 st3 (u ++ v).
Proof.
  intros [H1 H2] [H3 H4]. split.
  - rewrite H1, H3, app_assoc. reflexivity.
  - rewrite H4, H2, length_app. lia.
Qed.

Lemma step_sound (p : ascii -> bool) st st' :
  In st' (step p st) -> exists x, advances st st' [x] /\ p x = true.
Proof.
  unfold step. destruct (rest st) as [|x t] eqn:Hr; [contradiction|].
  destruct (p x) eqn:Hp; [|contradiction].
  intros [<- | []]. exists x. split; [|exact Hp].
  split; cbn [rest consumed List.length app]; [exact Hr|lia].
Qed.

Lemma rep_sound (f : mstate -> list mstate) (L : text -> Prop) :
  (forall st st', In st' (f st) -> exists u, advances st st' u /\ L u) ->
  forall hi lo st st',
    In st' (rep f lo hi st) ->
    exists us, advances st st' (List.concat us) /\ Forall L us
               /\ lo <= List.length us /\ List.length us <= hi.
Proof.
  intros Hf. induction hi as [|h IH]; intros lo st st'; cbn [rep].
  - destruct (lo =? 0) eqn:E; [|contradiction].
    intros [<- | []]. apply Nat.eqb_eq in E. exists [].
    repeat split; [simpl; lia|constructor|simpl; lia|simpl; lia].
  - rewrite in_app_iff, in_flat_map. intros [(s1 & H1 & H2) | H].
    + destruct (Hf _ _ H1) as (u & Hu & HL).
      destruct (IH _ _ _ H2) as (us & Hus & HF & Hlo & Hhi).
      exists (u :: us). cbn [List.concat List.length].
      repeat split; [| |constructor; assumption|lia|lia];
        apply (advances_trans _ _ _ _ _ Hu Hus).
    + destruct (lo =? 0) eqn:E; [|contradiction].
      destruct H as [<- | []]. apply Nat.eqb_eq in E. exists [].
      repeat split; [simpl; lia|constructor|simpl; lia|simpl; lia].
Qed.

(** Soundness of the matcher: every state it reports is reached by
    consuming a word of the pattern. *)
Lemma matches_sound (ic bol : bool) (r : regex) :
  forall st st',
    In st' (matches ic bol r st) ->
    exists u, advances st st' u /\ lang ic r u.
Proof.
  induction r as [| c | | | rs | | | r1 IH1 r2 IH2 | r1 IH1 r2 IH2
                  | lo hi r1 IH1 | r1 IH1];
    intros st st'; cbn [matches lang].
  - intros [<- | []]. exists []. split; [apply advances_nil|reflexivity].
  - intros H. destruct (step_sound _ _ _ H) as (x & Ha & Hp). eauto.
  - intros H. destruct (step_sound _ _ _ H) as (x & Ha & Hp). eauto.
  - intros H. destruct (step_sound _ _ _ H) as (x & Ha & Hp). eauto.
  - intros H. destruct (step_sound _ _ _ H) as (x & Ha & Hp). eauto.
  - destruct (bol && (consumed st =? 0)); [|contradiction].
    intros [<- | []]. exists []. split; [apply advances_nil|reflexivity].
  - destruct (rest st) as [|x [|y t]]; try contradiction.
    + intros [<- | []]. exists []. split; [apply advances_nil|reflexivity].
    + destruct (Ascii.eqb x "010"); [|contradiction].
      intros [<- | []]. exists []. split; [apply advances_nil|reflexivity].
  - rewrite in_flat_map. intros (s1 & H1 & H2).
    destruct (IH1 _ _ H1) as (u1 & Ha1 & HL1).
    destruct (IH2 _ _ H2) as (u2 & Ha2 & HL2).
    exists (u1 ++ u2). split; [exact (advances_trans _ _ _ _ _ Ha1 Ha2)|].
    exists u1, u2. auto.
  - rewrite in_app_iff. intros [H | H].
    + destruct (IH1 _ _ H) as (u & Ha & HL). eauto.
    + destruct (IH2 _ _ H) as (u & Ha & HL). eauto.
  - intros H.
    destruct (rep_sound _ (lang ic r1) IH1 _ _ _ _ H)
      as (us & Ha & HF & Hlo & Hhi).
    exists (List.concat us). split; [exact Ha|].
    exists us. repeat split; auto. destruct hi; [exact Hhi|exact I].
  - rewrite in_map_iff. intros (s1 & <- & H1).
    destruct (IH1 _ _ H1) as (u & [Ha1 Ha2] & HL).
    exists u. split; [|exact HL]. split; cbn [rest consumed]; assumption.
Qed.

(** What the group of a match holds is the word its pattern consumed. *)
Lemma group_sound (ic bol : bool) (r : regex) st st' :
  In st' (matches ic bol (Group r) st) ->
  exists u, advances st st' u /\ lang ic r u /\ cap st' = Some u.
Proof.
  cbn [matches]. rewrite in_map_iff. intros (s1 & <- & H1).
  destruct (matches_sound ic bol r _ _ H1) as (u & [Ha1 Ha2] & HL).
  exists u. split; [split; cbn [rest consumed]; assumption|].
  split; [exact HL|]. cbn [cap]. f_equal.
  rewrite Ha1, Ha2.
  replace (consumed st + List.length u - consumed st) with (List.length u + 0) by lia.
  rewrite firstn_app_2. cbn [firstn]. apply app_nil_r.
Qed.

(** ** The shape of a captured amount *)

Lemma lang_pred_rep (ic : bool) (r : regex) (p : ascii -> bool) lo hi u :
  (forall w, lang ic r w -> exists x, w = [x] /\ p x = true) ->
  lang ic (Rep lo hi r) u ->
  forallb p u = true /\ lo <= List.length u
  /\ match hi with Some h => List.length u <= h | None => True end.
Proof.
  intros Hr (us & -> & HF & Hlo & Hhi).
  assert (H : forallb p (List.concat us) = true
              /\ List.length (List.concat us) = List.length us).
  { clear Hlo Hhi. induction HF as [|w us Hw _ [IH1 IH2]]; [split; reflexivity|].
    destruct (Hr w Hw) as (x & -> & Hx). cbn [List.concat app forallb List.length].
    rewrite Hx, IH1, IH2. split; reflexivity. }
  destruct H as [H1 H2]. rewrite H2. auto.
Qed.

Lemma lang_digit_word (ic : bool) w :
  lang ic Digit w -> exists x, w = [x] /\ is_digit x = true.
Proof. trivial. Qed.

Lemma remove_commas_app (a b : text) :
  remove_commas (a ++ b) = remove_commas a ++ remove_commas b.
Proof. apply filter_app. Qed.

Lemma digit_no_comma (x : ascii) :
  is_digit x = true -> Ascii.eqb x "," = false /\ Ascii.eqb x "." = false.
Proof.
  intros H. destruct x as [[] [] [] [] [] [] [] []];
    try (vm_compute in H; discriminate H); split; reflexivity.
Qed.

Lemma remove_commas_digits (u : text) :
  forallb is_digit u = true -> remove_commas u = u.
Proof.
  induction u as [|x u IH]; [reflexivity|].
  cbn [forallb]. rewrite andb_true_iff. intros [Hx Hu].
  unfold remove_commas in *. cbn [filter].
  destruct (digit_no_comma x Hx) as [-> _]. cbn [negb]. rewrite IH by exact Hu.
  reflexivity.
Qed.

Lemma lang_comma_groups (u : text) :
  lang false (Rep 0 None (Seq (Lit ",") (Rep 3 (Some 3) Digit))) u ->
  forallb is_digit (remove_commas u) = true.
Proof.
  intros (us & -> & HF & _).
  induction HF as [|w us Hw _ IH]; [reflexivity|].
  cbn [List.concat]. rewrite remove_commas_app, forallb_app, IH, andb_true_r.
  destruct Hw as (u1 & u2 & -> & (x & -> & Hx) & H2).
  apply (lang_pred_rep false Digit is_digit) in H2; [|apply lang_digit_word].
  destruct H2 as [H2 _].
  unfold lit_matches in Hx. apply Ascii.eqb_eq in Hx. subst x.
  rewrite remove_commas_app, (remove_commas_digits u2 H2).
  exact H2.
Qed.

Lemma lang_opt_point (u : text) :
  lang false (Rep 0 (Some 1) (Lit ".")) u -> u = [] \/ u = ["."%char].
Proof.
  intros (us & -> & HF & _ & Hhi).
  destruct HF as [|w us Hw HF]; [left; reflexivity|].
  destruct us as [|w' us]; [|cbn [List.length] in Hhi; lia].
  destruct Hw as (x & -> & Hx). unfold lit_matches in Hx.
  apply Ascii.eqb_eq in Hx. subst x. right. reflexivity.
Qed.

(** A captured amount without its commas: digits, then possibly a point,
    then at most two digits. *)
Lemma amount_shape (u : text) :
  lang false AMOUNT u ->
  exists whole point cents,
    remove_commas u = whole ++ point ++ cents
    /\ forallb is_digit whole = true /\ whole <> []
    /\ (point = [] \/ point = ["."%char])
    /\ forallb is_digit cents = true /\ List.length cents <= 2.
Proof.
  intros (u1 & r1 & -> & H1 & u2 & r2 & -> & H2 & u3 & u4 & -> & H3 & H4).
  apply (lang_pred_rep false Digit is_digit) in H1; [|apply lang_digit_word].
  apply (lang_pred_rep false Digit is_digit) in H4; [|apply lang_digit_word].
  destruct H1 as (Hd1 & Hlen1 & _). destruct H4 as (Hd4 & _ & Hlen4).
  apply lang_comma_groups in H2. apply lang_opt_point in H3.
  exists (u1 ++ remove_commas u2), u3, u4.
  rewrite !remove_commas_app, (remove_commas_digits u1 Hd1),
    (remove_commas_digits u4 Hd4).
  assert (Hu3 : remove_commas u3 = u3) by (destruct H3 as [-> | ->]; reflexivity).
  rewrite Hu3, <- app_assoc.
  repeat split; auto.
  - rewrite forallb_app, Hd1, H2. reflexivity.
  - destruct u1; [simpl in Hlen1; lia|discriminate].
Qed.

(** ** [float] on a captured amount *)

Lemma digits_value_total (ds : text) :
  forallb is_digit ds = true ->
  forall acc, exists n, digits_value acc ds = Some n.
Proof.
  induction ds as [|x ds IH]; intros H acc; [exists acc; reflexivity|].
  cbn [forallb] in H. apply andb_true_iff in H. destruct H as [Hx Hds].
  cbn [digits_value]. rewrite Hx. apply IH, Hds.
Qed.

Lemma split_point_digits (ds : text) :
  forallb is_digit ds = true ->
  forall tail,
    split_point (ds ++ tail)
    = (ds ++ fst (split_point tail), snd (split_point tail)).
Proof.
  induction ds as [|x ds IH]; intros H tail.
  - cbn [app]. destruct (split_point tail); reflexivity.
  - cbn [forallb] in H. apply andb_true_iff in H. destruct H as [Hx Hds].
    cbn [app split_point]. destruct (digit_no_comma x Hx) as [_ ->].
    rewrite (IH Hds). reflexivity.
Qed.

Lemma float_of_amount (whole point cents : text) :
  forallb is_digit whole = true -> whole <> [] ->
  point = [] \/ point = ["."%char] ->
  forallb is_digit cents = true ->
  exists (n : N) (k : nat),
    k <= List.length cents
    /\ float_of_text (whole ++ point ++ cents)
       = Some (Qmake (Z.of_N n) (Z.to_pos (10 ^ Z.of_nat k))).
Proof.
  intros Hw Hne Hp Hc. unfold float_of_text.
  assert (Hall : forallb is_digit (whole ++ cents) = true)
    by (rewrite forallb_app, Hw, Hc; reflexivity).
  destruct (digits_value_total _ Hall 0%N) as (n & Hn).
  destruct Hp as [-> | ->]; cbn [app].
  - rewrite <- (app_nil_r (whole ++ cents)), split_point_digits by exact Hall.
    cbn [split_point fst snd]. rewrite !app_nil_r.
    destruct (whole ++ cents) as [|x ds] eqn:E;
      [destruct whole; [contradiction|discriminate]|].
    exists n, 0. cbv beta iota zeta.
    split; [apply Nat.le_0_l|]. rewrite Hn. reflexivity.
  - rewrite split_point_digits by exact Hw.
    change (split_point ("."%char :: cents)) with (@nil ascii, Some cents).
    cbn [fst snd]. rewrite app_nil_r.
    destruct (whole ++ cents) as [|x ds] eqn:E;
      [destruct whole; [contradiction|discriminate]|].
    exists n, (List.length cents). cbv beta iota zeta.
    split; [apply Nat.le_refl|]. rewrite Hn. reflexivity.
Qed.

(** ** What the price patterns capture *)

Lemma match_here_in (ic bol : bool) (r : regex) (s : text) g n :
  match_here ic bol r s = Some (g, n) ->
  exists st, In st (matches ic bol r (MState 0 None s)) /\ cap st = g.
Proof.
  unfold match_here.
  destruct (matches ic bol r (MState 0 None s)) as [|st l]; [discriminate|].
  intros H; injection H as <- _. exists st. split; [left; reflexivity|reflexivity].
Qed.

Lemma price_pattern_captures (pattern : regex) (bol : bool) (s : text) g n :
  In pattern price_patterns ->
  match_here false bol pattern s = Some (g, n) ->
  exists u, g = Some u /\ lang false AMOUNT u.
Proof.
  intros Hin Hm. destruct (match_here_in _ _ _ _ _ _ Hm) as (st & Hst & <-).
  unfold price_patterns in Hin.
  destruct Hin as [<- | [<- | [<- | []]]].
  - unfold P_DOLLAR in Hst. rewrite matches_Seq, in_flat_map in Hst.
    destruct Hst as (s1 & _ & H2).
    destruct (group_sound _ _ _ _ _ H2) as (u & _ & HL & Hc). eauto.
  - unfold P_USD in Hst. rewrite matches_Seq, in_flat_map in Hst.
    destruct Hst as (s1 & H1 & H2).
    destruct (group_sound _ _ _ _ _ H1) as (u & _ & HL & Hc).
    exists u. split; [|exact HL].
    rewrite (matches_cap false bol USD_SUFFIX eq_refl _ _ H2). exact Hc.
  - unfold P_BARE in Hst.
    destruct (group_sound _ _ _ _ _ Hst) as (u & _ & HL & Hc). eauto.
Qed.

Lemma findall_from_Forall (ic : bool) (r : regex) (P : text -> Prop) :
  (forall bol s g n, match_here ic bol r s = Some (g, n) -> P (group_text g)) ->
  forall s bol skip, Forall P (findall_from ic r s bol skip).
Proof.
  intros HP. induction s as [|c t IH]; intros bol skip.
  - cbn [findall_from]. destruct skip; [|constructor].
    destruct (match_here ic bol r []) as [[g n]|] eqn:E; [|constructor].
    constructor; [exact (HP _ _ _ _ E)|constructor].
  - destruct skip as [|k]; [|apply IH].
    rewrite findall_from_step.
    destruct (match_here ic bol r (c :: t)) as [[g n]|] eqn:E; [|apply IH].
    constructor; [exact (HP _ _ _ _ E)|apply IH].
Qed.

(** What [float] reads from an amount found by a price pattern is a whole
    number of hundredths. *)
Lemma matched_amount_value (pattern : regex) (t m0 : text) :
  In pattern price_patterns ->
  In m0 (re_findall false pattern t) ->
  exists (q : Q) (cents : Z),
    float_of_text (remove_commas m0) = Some q /\ (q == cents # 100)%Q.
Proof.
  intros Hin Hm0.
  assert (HF : Forall (fun m => exists u, m = u /\ lang false AMOUNT u)
                      (re_findall false pattern t)).
  { apply findall_from_Forall. intros bol s g n Hm.
    destruct (price_pattern_captures _ _ _ _ _ Hin Hm) as (u & -> & HL).
    exists u. auto. }
  rewrite Forall_forall in HF. destruct (HF _ Hm0) as (u & -> & HL).
  destruct (amount_shape u HL) as (whole & point & cents & -> & Hw & Hne & Hp & Hc & Hlen).
  destruct (float_of_amount whole point cents Hw Hne Hp Hc) as (n & k & Hk & ->).
  assert (Hk2 : k = 0 \/ k = 1 \/ k = 2) by lia.
  destruct Hk2 as [-> | [-> | ->]].
  - exists (Z.of_N n # 1)%Q, (Z.of_N n * 100)%Z. split; [reflexivity|].
    unfold Qeq. simpl. lia.
  - exists (Z.of_N n # 10)%Q, (Z.of_N n * 10)%Z. split; [reflexivity|].
    unfold Qeq. simpl. lia.
  - exists (Z.of_N n # 100)%Q, (Z.of_N n). split; [reflexivity|].
    unfold Qeq. simpl. lia.
Qed.

(** X1.  Every amount found by a price pattern is read by [float]: the
    [except ValueError] branch of [extract_price_from_text] is never
    taken. *)
Theorem matched_amount_parses (pattern : regex) (t m0 : text) :
  In pattern price_patterns ->
  In m0 (re_findall false pattern t) ->
  exists q, float_of_text (remove_commas m0) = Some q.
Proof.
  intros Hin Hm0.
  destruct (matched_amount_value pattern t m0 Hin Hm0) as (q & _ & Hq & _).
  exists q. exact Hq.
Qed.

Lemma matched_amount_parses_witness :
  In P_USD price_patterns
  /\ In (str "1,234.56") (re_findall false P_USD (str "1,234.56 USD"))
  /\ exists q, float_of_text (remove_commas (str "1,234.56")) = Some q.
Proof.
  assert (H1 : In P_USD price_patterns) by (right; left; reflexivity).
  assert (H2 : In (str "1,234.56") (re_findall false P_USD (str "1,234.56 USD")))
    by (left; reflexivity).
  split; [exact H1|]. split; [exact H2|].
  exact (matched_amount_parses P_USD (str "1,234.56 USD") (str "1,234.56") H1 H2).
Defined.

(** X2.  A price that is returned is a whole number of cents, between 1
    and 1,000,000 of them. *)
Theorem extracted_price_in_cents (t : text) (p : Q) :
  extract_price_from_text t = Some p ->
  exists cents : Z,
    (p == cents # 100)%Q /\ (1 <= cents <= 1000000)%Z.
Proof.
  intros H. pose proof (extract_price_reasonable t p H) as Hr.
  destruct t as [|c t]; [discriminate H|].
  unfold extract_price_from_text in H.
  pose proof (try_patterns_spec price_patterns (normalize (c :: t))) as Hs.
  rewrite H in Hs.
  destruct Hs as (before & pattern & after & Heq & _ & m0 & later & Hf & Hp & _).
  assert (Hin : In pattern price_patterns) by (rewrite Heq; apply in_elt).
  assert (Hm0 : In m0 (re_findall false pattern (normalize (c :: t))))
    by (rewrite Hf; left; reflexivity).
  destruct (matched_amount_value pattern _ m0 Hin Hm0) as (q & cents & Hq & Hc).
  rewrite Hp in Hq. injection Hq as <-.
  exists cents. split; [exact Hc|].
  destruct (reasonable_bounds p Hr) as [Hlo Hhi].
  rewrite Hc in Hlo, Hhi. unfold Qle in Hlo, Hhi. simpl in Hlo, Hhi. lia.
Qed.

Lemma extracted_price_in_cents_witness :
  extract_price_from_text (str "Now only $19.99!") = Some 19.99%Q
  /\ exists cents : Z,
       (19.99 == cents # 100)%Q /\ (1 <= cents <= 1000000)%Z.
Proof.
  assert (H : extract_price_from_text (str "Now only $19.99!") = Some 19.99%Q)
    by (vm_compute; reflexivity).
  split; [exact H|].
  exact (extracted_price_in_cents (str "Now only $19.99!") 19.99%Q H).
Defined.

(** ** What [looks_like_sku] accepts *)

Lemma class_alnum (x : ascii) : class_matches true ALNUM x = is_alnum x.
Proof. destruct x as [[] [] [] [] [] [] [] []]; reflexivity. Qed.

Lemma class_alpha (x : ascii) :
  class_matches true [("A"%char, "Z"%char)] x = is_alpha x.
Proof. destruct x as [[] [] [] [] [] [] [] []]; reflexivity. Qed.

Lemma lit_hyphen (x : ascii) : lit_matches true "-" x = true -> x = "-"%char.
Proof.
  destruct x as [[] [] [] [] [] [] [] []]; intros H;
    try (vm_compute in H; discriminate H); reflexivity.
Qed.

Lemma digit_alnum (u : text) :
  forallb is_digit u = true -> forallb is_alnum u = true.
Proof.
  rewrite !forallb_forall. intros H x Hx. unfold is_alnum. rewrite (H x Hx).
  reflexivity.
Qed.

Lemma alpha_alnum (u : text) :
  forallb is_alpha u = true -> forallb is_alnum u = true.
Proof.
  rewrite !forallb_forall. intros H x Hx. unfold is_alnum. rewrite (H x Hx).
  apply orb_true_r.
Qed.

Lemma ends_eol_rest (ic bol : bool) (r : regex) :
  ends_eol r = true ->
  forall st st', In st' (matches ic bol r st) ->
                 rest st' = [] \/ rest st' = ["010"%char].
Proof.
  induction r as [| c | | | rs | | | r1 IH1 r2 IH2 | r1 IH1 r2 IH2
                  | lo hi r1 IH1 | r1 IH1];
    cbn [ends_eol]; intros Hr st st'; try discriminate; cbn [matches].
  - destruct (rest st) as [|x [|y t]] eqn:E; try contradiction.
    + intros [<- | []]. left; exact E.
    + destruct (Ascii.eqb_spec x "010"); [|contradiction].
      intros [<- | []]. right. subst x. exact E.
  - rewrite in_flat_map. intros (s1 & _ & H2). exact (IH2 Hr _ _ H2).
Qed.

(** A pattern that ends with [$], matched against a text without final
    whitespace, consumes the whole text. *)
Lemma anchored_match_whole (r : regex) (s : text) :
  ends_eol r = true -> trimmed s ->
  re_match true r s = true -> lang true r s.
Proof.
  intros Hr [_ Hlast]. unfold re_match, match_here.
  destruct (matches true true r (MState 0 None s)) as [|st l] eqn:E;
    [discriminate|]. intros _.
  assert (Hin : In st (matches true true r (MState 0 None s)))
    by (rewrite E; left; reflexivity).
  destruct (matches_sound _ _ _ _ _ Hin) as (u & [Hu _] & HL).
  cbn [rest] in Hu.
  destruct (ends_eol_rest _ _ _ Hr _ _ Hin) as [Hr0 | Hr0]; rewrite Hr0 in Hu.
  - rewrite app_nil_r in Hu. subst u. exact HL.
  - specialize (Hlast _ _ Hu). discriminate Hlast.
Qed.

Lemma lang_class_word (ic : bool) rs (p : ascii -> bool) :
  (forall x, class_matches ic rs x = p x) ->
  forall w, lang ic (Class rs) w -> exists x, w = [x] /\ p x = true.
Proof. intros Hp w (x & -> & Hx). exists x. rewrite <- Hp. auto. Qed.

Lemma sku_pattern_shape (pattern : regex) (s : text) :
  In pattern sku_patterns -> trimmed s ->
  re_match true pattern s = true -> sku_shape s.
Proof.
  intros Hin Hs Hm. unfold sku_patterns in Hin.
  pose proof (lang_class_word true ALNUM is_alnum class_alnum) as Halnum.
  pose proof (lang_class_word true _ is_alpha class_alpha) as Halpha.
  destruct Hin as [<- | [<- | [<- | [<- | []]]]];
    match type of Hm with
    | re_match true ?r _ = true =>
        apply (anchored_match_whole r _ eq_refl Hs) in Hm
    end.
  - destruct Hm as (? & u & -> & -> & u1 & ? & -> & H1 & ->).
    destruct (lang_pred_rep true Digit is_digit 6 None u1
                            (lang_digit_word true) H1) as (Hd & Hlen & _).
    left. cbn [app]. rewrite app_nil_r.
    split; [lia|apply digit_alnum, Hd].
  - destruct Hm as (? & u & -> & -> & u1 & ? & -> & H1 & ->).
    destruct (lang_pred_rep true _ is_alnum 3 None u1 Halnum H1)
      as (Hd & Hlen & _).
    left. cbn [app]. rewrite app_nil_r. split; assumption.
  - destruct Hm as (? & u & -> & -> & u1 & ? & -> & H1
                    & ? & ? & -> & (x & -> & Hx) & u2 & ? & -> & H2 & ->).
    destruct (lang_pred_rep true Digit is_digit 3 None u1
                            (lang_digit_word true) H1) as (Hd1 & Hlen1 & _).
    destruct (lang_pred_rep true _ is_alnum 1 None u2 Halnum H2)
      as (Hd2 & Hlen2 & _).
    apply lit_hyphen in Hx. subst x.
    right. exists u1, u2. cbn [app]. rewrite app_nil_r.
    repeat split; auto. destruct u2; [simpl in Hlen2; lia|discriminate].
  - destruct Hm as (? & u & -> & -> & u1 & ? & -> & H1 & u2 & ? & -> & H2 & ->).
    destruct (lang_pred_rep true _ is_alpha 2 None u1 Halpha H1)
      as (Hd1 & Hlen1 & _).
    destruct (lang_pred_rep true Digit is_digit 1 None u2
                            (lang_digit_word true) H2) as (Hd2 & Hlen2 & _).
    left. cbn [app]. rewrite app_nil_r. split.
    + rewrite length_app. lia.
    + rewrite forallb_app, (alpha_alnum _ Hd1), (digit_alnum _ Hd2). reflexivity.
Qed.

(** Completeness for the repetition of a one-character test: a prefix of
    characters that pass it can be consumed. *)
Lemma rep_step_prefix (p : ascii -> bool) (u : text) :
  forallb p u = true ->
  forall lo hi n g tail,
    lo <= List.length u -> List.length u <= hi ->
    In (MState (n + List.length u) g tail)
       (rep (step p) lo hi (MState n g (u ++ tail))).
Proof.
  induction u as [|x u IH]; intros Hu lo hi n g tail Hlo Hhi.
  - cbn [List.length] in *. assert (lo = 0) by lia. subst lo.
    rewrite Nat.add_0_r. cbn [app].
    destruct hi as [|h]; cbn [rep Nat.eqb]; [left; reflexivity|].
    apply in_or_app. right. left. reflexivity.
  - cbn [forallb] in Hu. apply andb_true_iff in Hu. destruct Hu as [Hx Hu].
    cbn [List.length] in *.
    destruct hi as [|h]; [lia|]. cbn [rep app].
    apply in_or_app. left. unfold step at 2. cbn [rest consumed cap].
    rewrite Hx. cbn [flat_map]. rewrite app_nil_r.
    replace (n + S (List.length u)) with (S n + List.length u) by lia.
    apply IH; [exact Hu|lia|lia].
Qed.

Lemma in_matches_match (ic : bool) (r : regex) (s : text) st :
  In st (matches ic true r (MState 0 None s)) -> re_match ic r s = true.
Proof.
  unfold re_match, match_here.
  destruct (matches ic true r (MState 0 None s)); [contradiction|reflexivity].
Qed.

Lemma forallb_class_alnum (u : text) :
  forallb is_alnum u = true -> forallb (class_matches true ALNUM) u = true.
Proof.
  induction u as [|x u IH]; [reflexivity|].
  cbn [forallb]. rewrite class_alnum. intros H.
  apply andb_true_iff in H. destruct H as [-> H]. exact (IH H).
Qed.

Lemma matches_Rep_None (ic bol : bool) (r : regex) lo st :
  matches ic bol (Rep lo None r) st
  = rep (matches ic bol r) lo (List.length (rest st)) st.
Proof. reflexivity. Qed.

Lemma rep_matches_prefix (ic bol : bool) (r : regex) (p : ascii -> bool)
      (u : text) :
  (forall st, matches ic bol r st = step p st) ->
  forallb p u = true ->
  forall lo n g tail,
    lo <= List.length u ->
    In (MState (n + List.length u) g tail)
       (matches ic bol (Rep lo None r) (MState n g (u ++ tail))).
Proof.
  intros Hr Hu lo n g tail Hlo.
  rewrite matches_Rep_None, (rep_ext _ _ Hr). cbn [rest].
  apply rep_step_prefix; [exact Hu|exact Hlo|].
  rewrite length_app. apply Nat.le_add_r.
Qed.

Lemma alnum_matches (s : text) :
  3 <= List.length s -> forallb is_alnum s = true ->
  re_match true (Seq Bol (Seq (Rep 3 None (Class ALNUM)) Eol)) s = true.
Proof.
  intros Hlen Hs.
  apply (in_matches_match true _ s (MState (0 + List.length s) None [])).
  rewrite matches_Seq. apply in_flat_map. exists (MState 0 None s).
  split; [left; reflexivity|].
  rewrite matches_Seq. apply in_flat_map.
  exists (MState (0 + List.length s) None []). split; [|left; reflexivity].
  replace (MState 0 None s) with (MState 0 None (s ++ []))
    by (rewrite app_nil_r; reflexivity).
  apply (rep_matches_prefix true true _ (class_matches true ALNUM));
    [reflexivity|apply forallb_class_alnum, Hs|exact Hlen].
Qed.

Lemma hyphenated_matches (u1 u2 : text) :
  3 <= List.length u1 -> forallb is_digit u1 = true ->
  u2 <> [] -> forallb is_alnum u2 = true ->
  re_match true
    (Seq Bol (Seq (Rep 3 None Digit)
             (Seq (Lit "-") (Seq (Rep 1 None (Class ALNUM)) Eol))))
    (u1 ++ "-"%char :: u2) = true.
Proof.
  intros Hlen1 Hd1 Hne Hd2.
  set (n1 := 0 + List.length u1).
  apply (in_matches_match true _ _ (MState (S n1 + List.length u2) None [])).
  rewrite matches_Seq. apply in_flat_map.
  exists (MState 0 None (u1 ++ "-"%char :: u2)).
  split; [left; reflexivity|].
  rewrite matches_Seq. apply in_flat_map.
  exists (MState n1 None ("-"%char :: u2)). split.
  - apply (rep_matches_prefix true true _ is_digit);
      [reflexivity|exact Hd1|exact Hlen1].
  - rewrite matches_Seq. apply in_flat_map.
    exists (MState (S n1) None u2). split; [left; reflexivity|].
    rewrite matches_Seq. apply in_flat_map.
    exists (MState (S n1 + List.length u2) None []).
    split; [|left; reflexivity].
    replace (MState (S n1) None u2) with (MState (S n1) None (u2 ++ []))
      by (rewrite app_nil_r; reflexivity).
    apply (rep_matches_prefix true true _ (class_matches true ALNUM));
      [reflexivity|apply forallb_class_alnum, Hd2|].
    destruct u2; [contradiction|simpl; lia].
Qed.

Lemma strip_nil : strip [] = [].
Proof. reflexivity. Qed.

(** X6.  [looks_like_sku] accepts exactly the texts that, stripped, have one
    of the two shapes: the rules for six digits and for letters followed
    by digits add nothing to the rule for three letters or digits. *)
Theorem looks_like_sku_shape (t : text) :
  looks_like_sku t = true <-> sku_shape (strip t).
Proof.
  split.
  - intros H. pose proof (looks_like_sku_length t H) as Hlen.
    unfold looks_like_sku in H. destruct t as [|c t]; [discriminate|].
    destruct (List.length (strip (c :: t)) <? 3); [discriminate|].
    apply existsb_exists in H. destruct H as (pattern & Hin & Hm).
    exact (sku_pattern_shape pattern _ Hin (strip_trimmed _) Hm).
  - intros H.
    assert (Hlen : 3 <= List.length (strip t)).
    { destruct H as [[Hlen _] | (u1 & u2 & -> & Hlen & _)]; [exact Hlen|].
      rewrite length_app. lia. }
    unfold looks_like_sku. destruct t as [|c t]; [simpl in Hlen; lia|].
    apply Nat.ltb_ge in Hlen. rewrite Hlen.
    apply existsb_exists.
    destruct H as [[Hl Ha] | (u1 & u2 & Heq & Hl & Hd & Hne & Ha)].
    + eexists. split; [right; left; reflexivity|].
      apply alnum_matches; [apply Nat.ltb_ge, Hlen|exact Ha].
    + eexists. split; [right; right; left; reflexivity|].
      rewrite Heq. apply hyphenated_matches; assumption.
Qed.

(** X7.  Whitespace around the text plays no role. *)
Theorem looks_like_sku_strip_eq (t : text) :
  looks_like_sku (strip t) = looks_like_sku t.
Proof.
  unfold looks_like_sku. destruct t as [|c t]; [reflexivity|].
  destruct (strip (c :: t)) as [|c' t'] eqn:E; [reflexivity|].
  assert (Hfix : strip (c' :: t') = c' :: t')
    by (rewrite <- E; apply strip_idempotent).
  rewrite Hfix. reflexivity.
Qed.

(** X8.  A SKU that is returned has one of the two shapes: at least three
    letters or digits; or at least three digits, one hyphen, and letters or
    digits.  In particular it contains no whitespace. *)
Theorem scraped_sku_shape (engine : Engine) (url : text)
        (material_name : option text) (r : ScrapeResult) (s : text) :
  outcome engine url material_name = inr r ->
  sku r = Some s ->
  sku_shape s.
Proof.
  intros Hout Hsku.
  destruct (run_scrape_spec engine url material_name)
    as (r' & tr & Hrun & _ & Hr).
  unfold outcome in Hout. rewrite Hrun in Hout. injection Hout as ->.
  destruct (session_error engine url) as [e|]; [subst r; discriminate Hsku|].
  destruct Hr as (p & k & -> & _ & Hk). cbn [sku success_result] in Hsku.
  subst k.
  destruct (earliest_acceptance_tested _ _ _ _ _ Hk) as (t & Ht).
  destruct (sku_test_some _ _ Ht) as [-> Hl].
  unfold looks_like_sku in Hl. destruct t as [|c t]; [discriminate Hl|].
  destruct (List.length (strip (c :: t)) <? 3); [discriminate Hl|].
  apply existsb_exists in Hl. destruct Hl as (pattern & Hin & Hm).
  exact (sku_pattern_shape pattern _ Hin (strip_trimmed _) Hm).
Qed.

Lemma scraped_sku_shape_witness :
  outcome sample_page sample_url None = inr sample_result
  /\ sku sample_result = Some (str "SKU12345")
  /\ sku_shape (str "SKU12345").
Proof.
  split; [vm_compute; reflexivity|]. split; [reflexivity|].
  apply (scraped_sku_shape sample_page sample_url None sample_result);
    [vm_compute; reflexivity|reflexivity].
Defined.

(** ** Further facts on normalisation *)









(** X5.  The texts that normalisation leaves as they are are those without
    noise token. *)
Theorem normalize_fixed_iff (t : text) :
  normalize t = t <-> contains_noise t = false.
Proof.
  split.
  - intros H. destruct (contains_noise t) eqn:E; [|reflexivity].
    exfalso. exact (normalize_changes_noisy t E H).
  - intros H. apply sub_from_clean. exact H.
Qed.

(** X3.  A text without digit has no price. *)
Theorem no_digit_no_price (t : text) :
  no_digit t -> extract_price_from_text t = None.
Proof.
  intros H. destruct t as [|c t]; [reflexivity|].
  unfold extract_price_from_text. apply try_patterns_rejected.
  rewrite Forall_forall. intros pattern Hin.
  unfold first_match_rejected, re_findall.
  rewrite (findall_no_digit pattern _ Hin); [exact I|].
  apply sub_from_Forall. exact H.
Qed.

Lemma no_digit_no_price_witness :
  no_digit (str "Call for price") 
  /\ extract_price_from_text (str "Call for price") = None.
Proof.
  assert (H : no_digit (str "Call for price")) by (repeat constructor).
  split; [exact H|]. exact (no_digit_no_price (str "Call for price") H).
Defined.

(** ** The calls of a scrape, in order *)

Lemma queried_app (a b : list event) : queried (a ++ b) = queried a ++ queried b.
Proof.
  induction a as [|ev a IH]; [reflexivity|].
  destruct ev; cbn [app queried]; rewrite IH; reflexivity.
Qed.

Lemma queried_reads (tr : list event) :
  Forall (eq EvGetText) tr -> queried tr = [].
Proof. induction 1 as [|ev tr <- _ IH]; [reflexivity|exact IH]. Qed.

Lemma reads_are_queries (tr : list event) :
  Forall (eq EvGetText) tr -> Forall (fun ev => is_query ev = true) tr.
Proof. induction 1 as [|ev tr <- _ IH]; constructor; [reflexivity|exact IH]. Qed.

Section SearchCalls.

Variable engine : Engine.
Variable V : Type.
Variable test : text -> option V.
Variable truthy : option V -> bool.

(** The inner loop only reads the text of elements. *)
Lemma search_elements_calls (elements : list Element) :
  forall field fr r fr' tr,
    search_elements V test elements field fr = (r, fr', tr) ->
    Forall (eq EvGetText) tr.
Proof.
  induction elements as [|el more IH]; intros field fr r fr' tr H.
  - injection H as <- <- <-. constructor.
  - cbn [search_elements] in H. unfold bind at 1, call in H.
    destruct el as [e | o].
    + injection H as <- <- <-. repeat constructor.
    + assert (Hcont : forall c, c = search_elements V test more field ->
                (let '(r0, fr2, tr2) := c fr in (r0, fr2, [EvGetText] ++ tr2))
                = (r, fr', tr) -> Forall (eq EvGetText) tr).
      { intros c -> Hc.
        destruct (search_elements V test more field fr) as [[r0 fr2] tr2] eqn:E.
        injection Hc as <- <- <-. constructor; [reflexivity|].
        exact (IH _ _ _ _ _ E). }
      destruct o as [[|c t]|]; try exact (Hcont _ eq_refl H).
      destruct (test (c :: t)); [|exact (Hcont _ eq_refl H)].
      injection H as <- <- <-. repeat constructor.
Qed.

(** The outer loop queries a prefix of the selector list, in order, then
    only reads texts; it has queried the whole list when it ends with a
    field that is not true. *)
Lemma search_selectors_calls (selectors : list text) :
  forall field fr r fr' tr,
    search_selectors engine V test truthy selectors field fr = (r, fr', tr) ->
    Forall (fun ev => is_query ev = true) tr
    /\ exists k,
         queried tr = firstn k selectors
         /\ (selectors <> [] -> 1 <= k)
         /\ (forall res, r = inr res -> truthy res = false ->
                         k = List.length selectors).
Proof.
  induction selectors as [|selector more IH]; intros field fr r fr' tr H.
  - injection H as <- <- <-. split; [constructor|].
    exists 0. split; [reflexivity|].
    split; [intros C; exfalso; apply C; reflexivity|]. reflexivity.
  - cbn [search_selectors] in H. unfold bind at 1, try_except in H.
    unfold bind at 1, call at 1 in H.
    assert (Hnext : forall f trq fr0,
               Forall (eq EvGetText) trq ->
               (let '(r0, fr2, tr2) := search_selectors engine V test truthy more f fr0 in
                (r0, fr2, (EvSelectAll selector :: trq) ++ tr2)) = (r, fr', tr) ->
               Forall (fun ev => is_query ev = true) tr
               /\ exists k,
                    queried tr = firstn k (selector :: more)
                    /\ (selector :: more <> [] -> 1 <= k)
                    /\ (forall res, r = inr res -> truthy res = false ->
                                    k = List.length (selector :: more))).
    { intros f trq fr0 Hq Hc.
      destruct (search_selectors engine V test truthy more f fr0)
        as [[r0 fr2] tr2] eqn:E.
      injection Hc as <- <- <-.
      destruct (IH _ _ _ _ _ E) as (HF & k & Hk & _ & Hall).
      split.
      - constructor; [reflexivity|]. apply Forall_app.
        split; [apply reads_are_queries, Hq|exact HF].
      - exists (S k). cbn [app queried firstn List.length].
        rewrite queried_app, (queried_reads _ Hq), Hk.
        split; [reflexivity|]. split; [lia|].
        intros res Hr Ht. rewrite (Hall res Hr Ht). reflexivity. }
    destruct (select_all engine selector) as [e | elements].
    + cbn in H. apply (Hnext field [] fr); [constructor|exact H].
    + destruct (search_elements V test elements field fr)
        as [[[e | field'] fr1] tr1] eqn:E;
        pose proof (search_elements_calls _ _ _ _ _ _ E) as Hq;
        unfold bind in H; rewrite E in H; cbn in H.
      * rewrite app_nil_r in H. apply (Hnext field tr1 fr1); assumption.
      * rewrite app_nil_r in H.
        destruct (truthy field') eqn:Ht; cbn in H.
        -- injection H as <- <- <-. split.
           ++ constructor; [reflexivity|]. rewrite app_nil_r.
              apply reads_are_queries, Hq.
           ++ exists 1. cbn [queried firstn].
              rewrite app_nil_r, (queried_reads _ Hq).
              split; [reflexivity|]. split; [lia|].
              intros res Hr Hf. injection Hr as <-. congruence.
        -- apply (Hnext field' tr1 fr1); assumption.
Qed.

End SearchCalls.

Lemma run_scrape_success (engine : Engine) (url : text) (mn : option text) :
  session_error engine url = None ->
  exists p s trp trs,
    find_price engine {| browser := Some TheBrowser |}
    = (inr p, {| browser := Some TheBrowser |}, trp)
    /\ find_sku engine {| browser := Some TheBrowser |}
       = (inr s, {| browser := Some TheBrowser |}, trs)
    /\ run_scrape engine url mn
       = (inr (success_result url p s),
          EvStart :: EvGet url :: EvSleep :: trp ++ trs ++ [EvStop]).
Proof.
  unfold session_error. intros Hok.
  destruct (uc_start engine) as [e|] eqn:E1; [discriminate|].
  destruct (page_get engine url) as [e|] eqn:E2; [discriminate|].
  destruct (find_price_spec engine {| browser := Some TheBrowser |})
    as (p & trp & Hp & _).
  destruct (find_sku_spec engine {| browser := Some TheBrowser |})
    as (s & trs & Hs & _).
  exists p, s, trp, trs. split; [exact Hp|]. split; [exact Hs|].
  unfold run_scrape, scrape_price_and_sku.
  unfold try_finally, try_except, bind, call, set_browser, get_browser, ret,
    returns_or_raises.
  rewrite E1, E2, Hok. simpl. rewrite Hp. simpl. rewrite Hs. simpl.
  destruct (browser_stop engine); simpl;
    rewrite app_nil_r, <- app_assoc; reflexivity.
Qed.

Lemma run_scrape_failure (engine : Engine) (url : text) (mn : option text) e :
  session_error engine url = Some e ->
  run_scrape engine url mn
  = (inr (failure_result url e),
     match uc_start engine with
     | Some _ => [EvStart]
     | None =>
         EvStart :: EvGet url
         :: match page_get engine url with
            | Some _ => [EvStop]
            | None => [EvSleep; EvStop]
            end
     end).
Proof.
  unfold session_error, run_scrape, scrape_price_and_sku.
  unfold try_finally, try_except, bind, call, set_browser, get_browser, ret,
    returns_or_raises.
  destruct (uc_start engine) as [e1|].
  { intros H; injection H as <-. reflexivity. }
  destruct (page_get engine url) as [e2|].
  { intros H; injection H as <-. destruct (browser_stop engine); reflexivity. }
  intros H. rewrite H. destruct (browser_stop engine); reflexivity.
Qed.

(** X9.  The order of the calls: launch, navigation, delay, queries, stop.  The
    page is queried only after launch, navigation and delay have all
    returned, and a session that was launched is stopped last. *)
Theorem scrape_call_order (engine : Engine) (url : text)
        (material_name : option text) :
  exists queries,
    Forall (fun ev => is_query ev = true) queries
    /\ trace engine url material_name
       = match uc_start engine with
         | Some _ => [EvStart]
         | None =>
             EvStart :: EvGet url
             :: match page_get engine url with
                | Some _ => [EvStop]
                | None =>
                    EvSleep
                    :: match asyncio_sleep engine with
                       | Some _ => [EvStop]
                       | None => queries ++ [EvStop]
                       end
                end
         end.
Proof.
  unfold trace.
  destruct (session_error engine url) as [e|] eqn:Herr.
  - exists []. split; [constructor|].
    rewrite (run_scrape_failure _ _ _ _ Herr). cbn [snd].
    unfold session_error in Herr.
    destruct (uc_start engine); [reflexivity|].
    destruct (page_get engine url); [reflexivity|].
    rewrite Herr. reflexivity.
  - destruct (run_scrape_success engine url material_name Herr)
      as (p & s & trp & trs & Hp & Hs & ->).
    destruct (search_selectors_calls _ _ _ _ _ _ _ _ _ _ Hp) as [Hqp _].
    destruct (search_selectors_calls _ _ _ _ _ _ _ _ _ _ Hs) as [Hqs _].
    exists (trp ++ trs). split; [apply Forall_app; auto|].
    cbn [snd]. unfold session_error in Herr.
    destruct (uc_start engine); [discriminate|].
    destruct (page_get engine url); [discriminate|].
    rewrite Herr, <- app_assoc. reflexivity.
Qed.

(** X10.  The selectors are queried in the order of the two lists: a prefix of
    the price selectors, then a prefix of the SKU selectors.  Each search
    starts whatever the other gave, and a field is absent only after every
    selector of its list has been queried. *)
Theorem selectors_queried_in_order (engine : Engine) (url : text)
        (material_name : option text) (r : ScrapeResult) :
  session_error engine url = None ->
  outcome engine url material_name = inr r ->
  exists kp ks,
    queried (trace engine url material_name)
    = firstn kp price_selectors ++ firstn ks sku_selectors
    /\ 1 <= kp /\ 1 <= ks
    /\ (price r = None -> kp = List.length price_selectors)
    /\ (sku r = None -> ks = List.length sku_selectors).
Proof.
  intros Herr Hout.
  destruct (run_scrape_success engine url material_name Herr)
    as (p & s & trp & trs & Hp & Hs & Hrun).
  unfold outcome, trace in *. rewrite Hrun in *. cbn [fst snd] in *.
  injection Hout as <-.
  destruct (search_selectors_calls _ _ _ _ _ _ _ _ _ _ Hp)
    as (_ & kp & Hkp & Hp1 & Hpall).
  destruct (search_selectors_calls _ _ _ _ _ _ _ _ _ _ Hs)
    as (_ & ks & Hks & Hs1 & Hsall).
  exists kp, ks. cbn [queried]. rewrite !queried_app, Hkp, Hks.
  cbn [queried]. rewrite app_nil_r.
  split; [reflexivity|].
  split; [apply Hp1; discriminate|].
  split; [apply Hs1; discriminate|].
  cbn [price sku success_result]. split.
  - intros ->. apply (Hpall None eq_refl eq_refl).
  - intros ->. apply (Hsall None eq_refl eq_refl).
Qed.

Lemma selectors_queried_in_order_witness :
  session_error sample_page sample_url = None
  /\ outcome sample_page sample_url None = inr sample_result
  /\ exists kp ks,
       queried (trace sample_page sample_url None)
       = firstn kp price_selectors ++ firstn ks sku_selectors
       /\ 1 <= kp /\ 1 <= ks
       /\ (price sample_result = None -> kp = List.length price_selectors)
       /\ (sku sample_result = None -> ks = List.length sku_selectors).
Proof.
  split; [reflexivity|]. split; [vm_compute; reflexivity|].
  apply (selectors_queried_in_order sample_page sample_url None sample_result);
    [reflexivity|vm_compute; reflexivity].
Defined.

(** X11.  Every record names the URL it was asked for, and carries an error
    message exactly when [success] is false. *)
Theorem record_source_and_error (engine : Engine) (url : text)
        (material_name : option text) :
  exists r,
    outcome engine url material_name = inr r
    /\ source r = url
    /\ (error r = None <-> success r = true).
Proof.
  destruct (run_scrape_spec engine url material_name)
    as (r & tr & Hrun & _ & Hr).
  exists r. split; [unfold outcome; rewrite Hrun; reflexivity|].
  destruct (session_error engine url) as [e|].
  - subst r. split; [reflexivity|]. split; discriminate.
  - destruct Hr as (p & s & -> & _). split; [reflexivity|]. split; reflexivity.
Qed.
